(** * Credential hashing: a shallow embedding of the password utilities

    The utilities ([generateSalt], [hashPassword], [createPasswordHash],
    [verifyPassword], [constantTimeCompare]; imported elsewhere as
    [utils/password], kept in this tree in [src/utils/database.ts]) hash
    a password with PBKDF2-HMAC-SHA-256 through the Web
    Crypto API, stores the result as [$pbkdf2$iterations$salt$hash] and
    verifies a password against such a record.  JavaScript strings are
    sequences of UTF-16 code units, binary buffers are sequences of octets,
    32-bit words are integers reduced modulo 2^32, and the program runs in a
    small state-and-exception monad over the random source and the console.
    SHA-256, HMAC and PBKDF2, which the code reaches through [crypto.subtle],
    are written out after FIPS 180-4, RFC 2104 and RFC 8018 and checked
    against their published test vectors.

    Further parts cover what surrounds these utilities: the random password
    generator and the strength check of the same file, the validators of
    the registration and login forms, the lookup and verification of a user
    in the user table, and the deprecated query function with its simulated
    fallback. *)

From Stdlib Require Import ZArith NArith List Bool Lia.
From Stdlib Require Import Strings.String Strings.Ascii Strings.Byte.
Import ListNotations.

Local Open Scope Z_scope.

(** ** Octets *)

Module Octet.

Definition to_Z (b : byte) : Z := Z.of_N (Byte.to_N b).

(** The octet holding the low eight bits of [z]. *)
Definition of_Z (z : Z) : byte :=
  match Byte.of_N (Z.to_N (z mod 256)) with
  | Some b => b
  | None => x00
  end.

Definition xor (a b : byte) : byte := of_Z (Z.lxor (to_Z a) (to_Z b)).

(** Bytewise exclusive or of two buffers (of the same length in every use). *)
Fixpoint xor_bytes (xs ys : list byte) : list byte :=
  match xs, ys with
  | x :: xs', y :: ys' => xor x y :: xor_bytes xs' ys'
  | _, _ => []
  end.

End Octet.

(** ** SHA-256 (FIPS 180-4), the digest the Web Crypto call names by ['SHA-256'] *)

Module SHA256.

Definition w32 (x : Z) : Z := Z.land x 0xFFFFFFFF.
Definition add32 (x y : Z) : Z := w32 (x + y).
Definition rotr (n x : Z) : Z := Z.lor (Z.shiftr x n) (w32 (Z.shiftl x (32 - n))).
Definition shr (n x : Z) : Z := Z.shiftr x n.
Definition not32 (x : Z) : Z := Z.lxor x 0xFFFFFFFF.

Definition Ch (x y z : Z) : Z := Z.lxor (Z.land x y) (Z.land (not32 x) z).
Definition Maj (x y z : Z) : Z :=
  Z.lxor (Z.lxor (Z.land x y) (Z.land x z)) (Z.land y z).
Definition Sigma0 (x : Z) : Z := Z.lxor (Z.lxor (rotr 2 x) (rotr 13 x)) (rotr 22 x).
Definition Sigma1 (x : Z) : Z := Z.lxor (Z.lxor (rotr 6 x) (rotr 11 x)) (rotr 25 x).
Definition sigma0 (x : Z) : Z := Z.lxor (Z.lxor (rotr 7 x) (rotr 18 x)) (shr 3 x).
Definition sigma1 (x : Z) : Z := Z.lxor (Z.lxor (rotr 17 x) (rotr 19 x)) (shr 10 x).

(** The constants are defined as FIPS 180-4 defines them, from the first
    primes: [K] holds the first 32 bits of the fractional parts of the cube
    roots of the first sixty-four primes, [H0] those of the square roots of
    the first eight. *)

Definition is_prime (p : nat) : bool :=
  forallb (fun d => negb (Nat.eqb (Nat.modulo p d) 0)) (seq 2 (p - 2)).

Definition first_primes (n : nat) : list Z :=
  map Z.of_nat (firstn n (filter is_prime (seq 2 400))).

(** The integer cube root of [n < 2^108], found bit by bit. *)
Definition cube_root (n : Z) : Z :=
  fold_left (fun r b => let r' := r + 2 ^ Z.of_nat b in
                        if r' * r' * r' <=? n then r' else r)
            (rev (seq 0 36)) 0.

Definition K : list Z :=
  Eval vm_compute in map (fun p => w32 (cube_root (p * 2 ^ 96))) (first_primes 64).

(** The eight working variables, and the eight words of the hash value. *)
Record regs : Type := Regs { ra : Z; rb : Z; rc : Z; rd : Z; re : Z; rf : Z; rg : Z; rh : Z }.

Definition regs_of_list (ws : list Z) : regs :=
  Regs (nth 0 ws 0) (nth 1 ws 0) (nth 2 ws 0) (nth 3 ws 0)
       (nth 4 ws 0) (nth 5 ws 0) (nth 6 ws 0) (nth 7 ws 0).

Definition H0 : regs :=
  Eval vm_compute in
    regs_of_list (map (fun p => w32 (Z.sqrt (p * 2 ^ 64))) (first_primes 8)).

(** One round with constant [k] and schedule word [w]. *)
Definition round (r : regs) (k w : Z) : regs :=
  let t1 := add32 (add32 (add32 (add32 (rh r) (Sigma1 (re r))) (Ch (re r) (rf r) (rg r))) k) w in
  let t2 := add32 (Sigma0 (ra r)) (Maj (ra r) (rb r) (rc r)) in
  Regs (add32 t1 t2) (ra r) (rb r) (rc r) (add32 (rd r) t1) (re r) (rf r) (rg r).

(** The message schedule is kept as a window of sixteen words
    [W_t .. W_(t+15)]; [next_word] is [W_(t+16)]. *)
Definition next_word (win : list Z) : Z :=
  add32 (add32 (add32 (sigma1 (nth 14 win 0)) (nth 9 win 0)) (sigma0 (nth 1 win 0)))
        (nth 0 win 0).

Definition slide (win : list Z) : list Z := tl win ++ [next_word win].

Fixpoint rounds (ks : list Z) (r : regs) (win : list Z) : regs :=
  match ks with
  | [] => r
  | k :: ks' => rounds ks' (round r k (nth 0 win 0)) (slide win)
  end.

(** Big-endian words of a 64-byte block. *)
Fixpoint words_of_bytes (bs : list byte) : list Z :=
  match bs with
  | b0 :: b1 :: b2 :: b3 :: rest =>
      (Octet.to_Z b0 * 16777216 + Octet.to_Z b1 * 65536 + Octet.to_Z b2 * 256 + Octet.to_Z b3)
        :: words_of_bytes rest
  | _ => []
  end.

Definition compress (h : regs) (block : list byte) : regs :=
  let r := rounds K h (words_of_bytes block) in
  Regs (add32 (ra h) (ra r)) (add32 (rb h) (rb r)) (add32 (rc h) (rc r))
       (add32 (rd h) (rd r)) (add32 (re h) (re r)) (add32 (rf h) (rf r))
       (add32 (rg h) (rg r)) (add32 (rh h) (rh r)).

Definition bytes_of_word (w : Z) : list byte :=
  [ Octet.of_Z (Z.shiftr w 24); Octet.of_Z (Z.shiftr w 16);
    Octet.of_Z (Z.shiftr w 8); Octet.of_Z w ].

Definition bytes_of_regs (r : regs) : list byte :=
  bytes_of_word (ra r) ++ bytes_of_word (rb r) ++ bytes_of_word (rc r) ++
  bytes_of_word (rd r) ++ bytes_of_word (re r) ++ bytes_of_word (rf r) ++
  bytes_of_word (rg r) ++ bytes_of_word (rh r).

(** Padding: a 1 bit, zero bits up to 56 modulo 64 bytes, then the bit
    length as a 64-bit big-endian integer. *)
Definition pad (msg : list byte) : list byte :=
  let len := Z.of_nat (List.length msg) in
  let zeros := Z.to_nat ((55 - len) mod 64) in
  let bits := (8 * len) mod 18446744073709551616 in
  msg ++ [x80] ++ repeat x00 zeros
      ++ bytes_of_word (Z.shiftr bits 32) ++ bytes_of_word (w32 bits).

(** Absorbs the padded message one 64-byte block at a time; [n] bounds the
    number of blocks. *)
Fixpoint absorb (n : nat) (h : regs) (bs : list byte) : regs :=
  match n, bs with
  | S n', _ :: _ => absorb n' (compress h (firstn 64 bs)) (skipn 64 bs)
  | _, _ => h
  end.

Definition digest (msg : list byte) : list byte :=
  let p := pad msg in
  bytes_of_regs (absorb (List.length p) H0 p).

End SHA256.

(** ** JavaScript values the module handles *)

Module JS.

(** A UTF-16 code unit, as its high and low octet. *)
Record char16 : Type := Char16 { hi : byte; lo : byte }.

Definition jsstring : Type := list char16.

Definition code (c : char16) : Z := 256 * Octet.to_Z (hi c) + Octet.to_Z (lo c).

Definition char_eqb (c d : char16) : bool :=
  Byte.eqb (hi c) (hi d) && Byte.eqb (lo c) (lo d).

(** [===] on two strings. *)
Fixpoint str_eqb (s t : jsstring) : bool :=
  match s, t with
  | [], [] => true
  | c :: s', d :: t' => char_eqb c d && str_eqb s' t'
  | _, _ => false
  end.

Definition of_ascii (a : ascii) : char16 := Char16 x00 (byte_of_ascii a).

(** A string literal of the source (all of them are ASCII). *)
Definition lit (s : string) : jsstring := map of_ascii (list_ascii_of_string s).

(** The numbers that occur here: integers and NaN.  An integer stands for
    the double nearest to it; the only test made on a number that can be
    large is the range check of [deriveBits], which rounding does not
    change. *)
Inductive number : Type :=
| NaN
| Int (z : Z).

(** ToInt32, the conversion applied to the operands of [^] and [|]. *)
Definition ToInt32 (x : number) : Z :=
  match x with
  | NaN => 0
  | Int z => (z + 2147483648) mod 4294967296 - 2147483648
  end.

Definition bitxor (x y : number) : number := Int (ToInt32 (Int (Z.lxor (ToInt32 x) (ToInt32 y)))).
Definition bitor (x y : number) : number := Int (ToInt32 (Int (Z.lor (ToInt32 x) (ToInt32 y)))).

(** [x === y] on numbers: NaN is not equal to itself. *)
Definition num_eqb (x y : number) : bool :=
  match x, y with
  | Int a, Int b => a =? b
  | _, _ => false
  end.

(** [s.charCodeAt(i)]: NaN when [i] is out of range. *)
Definition charCodeAt (s : jsstring) (i : nat) : number :=
  match nth_error s i with
  | Some c => Int (code c)
  | None => NaN
  end.

(** [a[i]]: [None] is [undefined]. *)
Definition index {A : Type} (a : list A) (i : nat) : option A := nth_error a i.

(** [v !== s] for an array element [v] and a string [s]. *)
Definition strict_neq (v : option jsstring) (s : jsstring) : bool :=
  match v with
  | Some t => negb (str_eqb t s)
  | None => true
  end.

(** *** String.prototype.split with a separator of one code unit *)

Fixpoint split (sep : char16) (s : jsstring) : list jsstring :=
  match s with
  | [] => [[]]
  | c :: s' =>
      if char_eqb c sep then [] :: split sep s'
      else match split sep s' with
           | p :: ps => (c :: p) :: ps
           | [] => [[c]]
           end
  end.

(** *** Digits *)

(** The digit characters [0-9a-z] in order. *)
Definition digit_char (d : Z) : char16 :=
  Char16 x00 (Octet.of_Z (if d <? 10 then 48 + d else 87 + d)).

(** Value of a code unit as a digit of radix [R], if it is one. *)
Definition digit_value (R : Z) (c : char16) : option Z :=
  let k := code c in
  let v := if (48 <=? k) && (k <=? 57) then k - 48
           else if (97 <=? k) && (k <=? 122) then k - 87
           else if (65 <=? k) && (k <=? 90) then k - 55
           else 36 in
  if v <? R then Some v else None.

(** Digits of [n >= 0] in radix [R], most significant first; [fuel] bounds
    their number. *)
Fixpoint digits_fuel (fuel : nat) (R n : Z) : list Z :=
  match fuel with
  | O => []
  | S fuel' =>
      if n <? R then [n] else digits_fuel fuel' R (n / R) ++ [n mod R]
  end.

Definition digits (R n : Z) : list Z :=
  digits_fuel (S (Z.to_nat (Z.log2 n))) R n.

(** Number.prototype.toString(radix) on the integers of magnitude below
    10^21, where the result is the plain digit string. *)
Definition Number_toString (R : Z) (x : number) : jsstring :=
  match x with
  | NaN => lit "NaN"
  | Int z =>
      if z <? 0 then lit "-" ++ map digit_char (digits R (- z))
      else map digit_char (digits R z)
  end.

(** [s.padStart(n, f)] for a filler [f] of one code unit. *)
Definition padStart (n : nat) (f : char16) (s : jsstring) : jsstring :=
  repeat f (n - List.length s) ++ s.

(** [a.join('')] *)
Definition join (a : list jsstring) : jsstring := List.concat a.

(** *** parseInt(string) without a radix argument *)

(** WhiteSpace and LineTerminator code units. *)
Definition is_white (c : char16) : bool :=
  let k := code c in
  ((9 <=? k) && (k <=? 13)) || (k =? 32) || (k =? 160) || (k =? 5760)
  || ((8192 <=? k) && (k <=? 8202)) || (k =? 8232) || (k =? 8233)
  || (k =? 8239) || (k =? 8287) || (k =? 12288) || (k =? 65279).

Fixpoint trim_start (s : jsstring) : jsstring :=
  match s with
  | c :: s' => if is_white c then trim_start s' else s
  | [] => []
  end.

(** Digit values of the longest prefix of [s] made of radix-[R] digits. *)
Fixpoint digit_prefix (R : Z) (s : jsstring) : list Z :=
  match s with
  | c :: s' =>
      match digit_value R c with
      | Some v => v :: digit_prefix R s'
      | None => []
      end
  | [] => []
  end.

Definition digits_value (R : Z) (ds : list Z) : Z :=
  fold_left (fun acc d => acc * R + d) ds 0.

Definition parseInt (input : jsstring) : number :=
  let s := trim_start input in
  let '(sign, s) :=
    match s with
    | c :: s' => if code c =? 45 then (-1, s')
                 else if code c =? 43 then (1, s') else (1, s)
    | [] => (1, s)
    end in
  let '(R, s) :=
    match s with
    | c0 :: c1 :: s' =>
        if (code c0 =? 48) && ((code c1 =? 120) || (code c1 =? 88))
        then (16, s') else (10, s)
    | _ => (10, s)
    end in
  match digit_prefix R s with
  | [] => NaN
  | ds => Int (sign * digits_value R ds)
  end.

(** *** TextEncoder.prototype.encode: UTF-8 of the string, an unpaired
    surrogate encoded as U+FFFD *)

Definition is_high_surrogate (c : char16) : bool := (55296 <=? code c) && (code c <=? 56319).
Definition is_low_surrogate (c : char16) : bool := (56320 <=? code c) && (code c <=? 57343).

Definition utf8 (cp : Z) : list byte :=
  if cp <? 128 then [Octet.of_Z cp]
  else if cp <? 2048 then
    [Octet.of_Z (Z.lor 192 (Z.shiftr cp 6)); Octet.of_Z (Z.lor 128 (Z.land cp 63))]
  else if cp <? 65536 then
    [Octet.of_Z (Z.lor 224 (Z.shiftr cp 12));
     Octet.of_Z (Z.lor 128 (Z.land (Z.shiftr cp 6) 63));
     Octet.of_Z (Z.lor 128 (Z.land cp 63))]
  else
    [Octet.of_Z (Z.lor 240 (Z.shiftr cp 18));
     Octet.of_Z (Z.lor 128 (Z.land (Z.shiftr cp 12) 63));
     Octet.of_Z (Z.lor 128 (Z.land (Z.shiftr cp 6) 63));
     Octet.of_Z (Z.lor 128 (Z.land cp 63))].

Fixpoint encode (s : jsstring) : list byte :=
  match s with
  | [] => []
  | c :: s' =>
      if is_high_surrogate c then
        match s' with
        | d :: s'' =>
            if is_low_surrogate d
            then utf8 (65536 + (code c - 55296) * 1024 + (code d - 56320)) ++ encode s''
            else utf8 65533 ++ encode s'
        | [] => utf8 65533
        end
      else if is_low_surrogate c then utf8 65533 ++ encode s'
      else utf8 (code c) ++ encode s'
  end.

End JS.

(** ** Effects: the random source, the console, exceptions *)

Module Eff.

Inductive exn : Type :=
| TypeError
| OperationError
| QuotaExceededError.

(** A line written by [console.error]: the message and, when one is
    passed, the caught error. *)
Record log_entry : Type := LogError { message : string; detail : option exn }.

(** The random source is a tape of octets read from [cursor] on. *)
Record world : Type := World {
  tape : nat -> byte;
  cursor : nat;
  console : list log_entry
}.

(** How a call ends: it returns, or it throws (an [async] function then
    rejects its promise, and [await] rethrows). *)
Inductive outcome (A : Type) : Type :=
| Return (a : A)
| Throw (e : exn).
Arguments Return {A} a.
Arguments Throw {A} e.

Definition prog (A : Type) : Type := world -> outcome A * world.

Definition ret {A : Type} (a : A) : prog A := fun w => (Return a, w).

Definition throw {A : Type} (e : exn) : prog A := fun w => (Throw e, w).

Definition bind {A B : Type} (m : prog A) (k : A -> prog B) : prog B :=
  fun w =>
    match m w with
    | (Return a, w') => k a w'
    | (Throw e, w') => (Throw e, w')
    end.

(** [try { body } catch (error) { handler }] *)
Definition try_catch {A : Type} (body : prog A) (handler : exn -> prog A) : prog A :=
  fun w =>
    match body w with
    | (Return a, w') => (Return a, w')
    | (Throw e, w') => handler e w'
    end.

Definition console_error (msg : string) (err : option exn) : prog unit :=
  fun w => (Return tt, World (tape w) (cursor w) (console w ++ [LogError msg err])).

(** The value a call yields in world [w]. *)
Definition result {A : Type} (m : prog A) (w : world) : outcome A := fst (m w).

(** The world a call leaves behind. *)
Definition after {A : Type} (m : prog A) (w : world) : world := snd (m w).

End Eff.

Import Eff.

Declare Scope prog_scope.
Delimit Scope prog_scope with prog.
Notation "x <- m ;; k" := (bind m (fun x => k))
  (at level 61, m at next level, right associativity) : prog_scope.
Notation "m ;;; k" := (bind m (fun _ => k))
  (at level 61, right associativity) : prog_scope.

(** ** The Web Crypto calls the module makes *)

Module Crypto.

(** [crypto.getRandomValues] on a fresh [Uint8Array(n)]: fills it from the
    random source; more than 65536 octets are refused. *)
Definition getRandomValues (n : nat) : prog (list byte) :=
  fun w =>
    if 65536 <? Z.of_nat n then (Throw QuotaExceededError, w)
    else (Return (map (tape w) (seq (cursor w) n)),
          World (tape w) (cursor w + n) (console w)).

(** *** HMAC-SHA-256 (RFC 2104) *)

(** The key brought to the block size: hashed when longer than 64 octets,
    then filled up with zero octets. *)
Definition key_block (key : list byte) : list byte :=
  let k := if (64 <? List.length key)%nat then SHA256.digest key else key in
  k ++ repeat x00 (64 - List.length k).

Definition hmac (key msg : list byte) : list byte :=
  let k0 := key_block key in
  let ipad := map (Octet.xor x36) k0 in
  let opad := map (Octet.xor x5c) k0 in
  SHA256.digest (opad ++ SHA256.digest (ipad ++ msg)).

(** *** PBKDF2 (RFC 8018, section 5.2) over a pseudorandom function [prf]
    with 32 octets of output *)

Definition int32_be (i : Z) : list byte := SHA256.bytes_of_word i.

(** One more iteration: [(U_j, U_1 xor .. xor U_j)] from the pair for [j-1]. *)
Definition F_step (prf : list byte -> list byte) (ut : list byte * list byte)
  : list byte * list byte :=
  let u' := prf (fst ut) in (u', Octet.xor_bytes (snd ut) u').

(** [F (P, S, c, i) = U_1 xor U_2 xor .. xor U_c] *)
Definition F (prf : list byte -> list byte) (salt : list byte) (c : Z) (i : Z)
  : list byte :=
  let u1 := prf (salt ++ int32_be i) in
  snd (N.iter (Z.to_N (c - 1)) (F_step prf) (u1, u1)).

(** The derived key of [dkLen] octets: the blocks [T_1 .. T_l], cut. *)
Definition pbkdf2 (prf : list byte -> list byte) (salt : list byte) (c : Z)
    (dkLen : nat) : list byte :=
  let l := Nat.div (dkLen + 31) 32 in
  firstn dkLen (flat_map (fun i => F prf salt c (Z.of_nat i)) (seq 1 l)).

Record CryptoKey : Type := { key_data : list byte }.

(** [crypto.subtle.importKey('raw', data, {name: 'PBKDF2'}, false,
    ['deriveBits'])] *)
Definition importKey (data : list byte) : prog CryptoKey :=
  ret {| key_data := data |}.

(** [crypto.subtle.deriveBits({name: 'PBKDF2', salt, iterations, hash:
    'SHA-256'}, key, length)].  [iterations] is converted to an
    [[EnforceRange] unsigned long] (a TypeError outside 0 .. 2^32-1 and on
    NaN); zero iterations, and a length that is zero or no multiple of 8,
    are an OperationError. *)
Definition deriveBits (salt : list byte) (iterations : JS.number)
    (key : CryptoKey) (length : Z) : prog (list byte) :=
  match iterations with
  | JS.NaN => throw TypeError
  | JS.Int c =>
      if (c <? 0) || (4294967295 <? c) then throw TypeError
      else if (length <=? 0) || negb (length mod 8 =? 0) then throw OperationError
      else if c =? 0 then throw OperationError
      else ret (pbkdf2 (hmac (key_data key)) salt c (Z.to_nat (length / 8)))
  end.

End Crypto.

(** ** The password utilities *)

Local Open Scope prog_scope.

Definition dollar : JS.char16 := JS.of_ascii "$".
Definition zero_char : JS.char16 := JS.of_ascii "0".

(** [byte => byte.toString(16).padStart(2, '0')] *)
Definition hex_byte (b : byte) : JS.jsstring :=
  JS.padStart 2 zero_char (JS.Number_toString 16 (JS.Int (Octet.to_Z b))).

Definition generateSalt (length : nat) : prog JS.jsstring :=
  array <- Crypto.getRandomValues length ;;
  ret (JS.join (map hex_byte array)).

Definition hashPassword (password salt : JS.jsstring) (iterations : JS.number)
  : prog JS.jsstring :=
  let passwordData := JS.encode password in
  let saltData := JS.encode salt in
  importedKey <- Crypto.importKey passwordData ;;
  derivedBits <- Crypto.deriveBits saltData iterations importedKey 256 ;;
  let hashArray := derivedBits in
  ret (JS.join (map hex_byte hashArray)).

Definition createPasswordHash (password : JS.jsstring) : prog JS.jsstring :=
  salt <- generateSalt 16 ;;
  let iterations := JS.Int 100000 in
  hash <- hashPassword password salt iterations ;;
  ret (JS.lit "$pbkdf2$" ++ JS.Number_toString 10 iterations ++ JS.lit "$"
       ++ salt ++ JS.lit "$" ++ hash).

Definition constantTimeCompare (a b : JS.jsstring) : bool :=
  if negb (List.length a =? List.length b)%nat then false
  else
    let result :=
      fold_left
        (fun result i => JS.bitor result (JS.bitxor (JS.charCodeAt a i) (JS.charCodeAt b i)))
        (seq 0 (List.length a)) (JS.Int 0) in
    JS.num_eqb result (JS.Int 0).

(** After the guard [parts] has five elements, so [parts[2]], [parts[3]] and
    [parts[4]] are strings; [nth] reads them. *)
Definition verifyPassword (password hashedPassword : JS.jsstring) : prog bool :=
  try_catch
    (let parts := JS.split dollar hashedPassword in
     if negb (List.length parts =? 5)%nat || JS.strict_neq (JS.index parts 1) (JS.lit "pbkdf2")
     then
       console_error "Invalid password hash format" None ;;;
       ret false
     else
       let iterations := JS.parseInt (nth 2 parts []) in
       let salt := nth 3 parts [] in
       let storedHash := nth 4 parts [] in
       computedHash <- hashPassword password salt iterations ;;
       ret (constantTimeCompare computedHash storedHash))
    (fun error =>
       console_error "Password verification error:" (Some error) ;;;
       ret false).

Local Close Scope prog_scope.

(** ** Vocabulary of the properties *)

Definition bytes_of_ascii (s : string) : list byte := list_byte_of_string s.

(** A world whose random source yields the octets 0, 1, 2, .. *)
Definition world0 : world := World (fun n => Octet.of_Z (Z.of_nat n)) 0 [].

(** The hexadecimal rendering of a buffer, as [generateSalt] and
    [hashPassword] build it. *)
Definition hex (bs : list byte) : JS.jsstring := JS.join (map hex_byte bs).

(** A lowercase hexadecimal digit: [0-9a-f]. *)
Definition is_lower_hex (c : JS.char16) : bool :=
  let k := JS.code c in
  ((48 <=? k) && (k <=? 57)) || ((97 <=? k) && (k <=? 102)).

Definition hex_string (s : JS.jsstring) : bool := forallb is_lower_hex s.

(** [s] does not contain the code unit [sep]. *)
Definition free_of (sep : JS.char16) (s : JS.jsstring) : bool :=
  forallb (fun c => negb (JS.char_eqb c sep)) s.

(** The octets PBKDF2-HMAC-SHA-256 derives from a password and a salt. *)
Definition derive (password salt : JS.jsstring) (c : Z) : list byte :=
  Crypto.pbkdf2 (Crypto.hmac (JS.encode password)) (JS.encode salt) c 32.

(** The iteration counts [deriveBits] accepts. *)
Definition valid_iterations (c : Z) : bool := (1 <=? c) && (c <=? 4294967295).

(** A decimal digit value. *)
Definition is_decimal (d : Z) : Prop := 0 <= d < 10.

(** The salt [generateSalt 16] draws in world [w], and the world it leaves. *)
Definition drawn_salt (w : world) : JS.jsstring :=
  hex (map (tape w) (seq (cursor w) 16)).

Definition advance (n : nat) (w : world) : world :=
  World (tape w) (cursor w + n) (console w).

(** The digest [hashPassword] returns for a valid iteration count. *)
Definition digest_of (password salt : JS.jsstring) (c : Z) : JS.jsstring :=
  hex (derive password salt c).

(** A stored string [verifyPassword] cannot use: it does not split into the
    five parts of the layout, or its tag is not [pbkdf2], or [parseInt]
    reads no integer in its iterations part, or one that is no iteration
    count. *)
Definition malformed (r : JS.jsstring) : bool :=
  let parts := JS.split dollar r in
  negb (List.length parts =? 5)%nat
  || JS.strict_neq (JS.index parts 1) (JS.lit "pbkdf2")
  || match JS.parseInt (nth 2 parts []) with
     | JS.NaN => true
     | JS.Int c => negb (valid_iterations c)
     end.

(** The code unit U+0000. *)
Definition nul : JS.char16 := JS.Char16 x00 x00.

(** The layout [createPasswordHash] writes. *)
Definition encoded_record (iterations : JS.number) (salt digest : JS.jsstring)
  : JS.jsstring :=
  JS.lit "$pbkdf2$" ++ JS.Number_toString 10 iterations ++ JS.lit "$"
  ++ salt ++ JS.lit "$" ++ digest.


(** ** String literals that are not ASCII *)

(** The code unit of value [z]. *)
Definition unit16 (z : Z) : JS.char16 := JS.Char16 (Octet.of_Z (z / 256)) (Octet.of_Z z).

(** UTF-16 of a text given by its UTF-8 octets (well-formed, as a literal of
    the source is). *)
Fixpoint utf16_of_utf8 (bs : list byte) : JS.jsstring :=
  match bs with
  | [] => []
  | b0 :: r0 =>
      let z0 := Octet.to_Z b0 in
      if z0 <? 128 then unit16 z0 :: utf16_of_utf8 r0
      else
        match r0 with
        | [] => []
        | b1 :: r1 =>
            let z1 := Z.land (Octet.to_Z b1) 63 in
            if z0 <? 224 then unit16 (Z.land z0 31 * 64 + z1) :: utf16_of_utf8 r1
            else
              match r1 with
              | [] => []
              | b2 :: r2 =>
                  let z2 := Z.land (Octet.to_Z b2) 63 in
                  if z0 <? 240
                  then unit16 (Z.land z0 15 * 4096 + z1 * 64 + z2) :: utf16_of_utf8 r2
                  else
                    match r2 with
                    | [] => []
                    | b3 :: r3 =>
                        let z3 := Z.land (Octet.to_Z b3) 63 in
                        let cp := Z.land z0 7 * 262144 + z1 * 4096 + z2 * 64 + z3 - 65536 in
                        unit16 (55296 + cp / 1024) :: unit16 (56320 + cp mod 1024)
                          :: utf16_of_utf8 r3
                    end
              end
        end
  end.

(** A string literal of the source, written here in UTF-8. *)
Definition text (s : string) : JS.jsstring := utf16_of_utf8 (list_byte_of_string s).

(** ** Regular expressions, as the tests of the source use them *)

(** Each construct takes the matcher [k] of what follows it in the pattern
    and answers whether the pattern can match from the start of [s], trying
    the alternatives as a backtracking matcher does. *)
Module Regex.

Definition matcher : Type := JS.jsstring -> bool.

(** The end of the pattern: whatever is left, the match is found. *)
Definition accept : matcher := fun _ => true.

(** [$] (no [m] flag): the end of the string. *)
Definition eos : matcher := fun s => match s with [] => true | _ :: _ => false end.

(** One code unit of the class [p]. *)
Definition one (p : JS.char16 -> bool) (k : matcher) : matcher :=
  fun s => match s with
           | c :: s' => p c && k s'
           | [] => false
           end.

(** [p*]: as many code units of the class as possible, then fewer. *)
Fixpoint star (p : JS.char16 -> bool) (k : matcher) (s : JS.jsstring) : bool :=
  match s with
  | c :: s' => (p c && star p k s') || k s
  | [] => k []
  end.

(** [p+] *)
Definition plus (p : JS.char16 -> bool) (k : matcher) : matcher := one p (star p k).

(** [p?] *)
Definition opt (p : JS.char16 -> bool) (k : matcher) : matcher :=
  fun s => one p k s || k s.

(** [p{0,n}] *)
Fixpoint upto (n : nat) (p : JS.char16 -> bool) (k : matcher) (s : JS.jsstring) : bool :=
  match n with
  | O => k s
  | S n' => one p (upto n' p k) s || k s
  end.

(** [regex.test(s)] for a pattern that does not start with [^]: a match
    from some position of [s]. *)
Fixpoint search (m : matcher) (s : JS.jsstring) : bool :=
  m s || match s with
         | _ :: s' => search m s'
         | [] => false
         end.

(** The classes of the patterns. *)
Definition chr (a : ascii) (c : JS.char16) : bool := JS.char_eqb c (JS.of_ascii a).
Definition range (lo hi : Z) (c : JS.char16) : bool := (lo <=? JS.code c) && (JS.code c <=? hi).
Definition lower : JS.char16 -> bool := range 97 122.
Definition upper : JS.char16 -> bool := range 65 90.
Definition digit : JS.char16 -> bool := range 48 57.
(** [\s] *)
Definition space : JS.char16 -> bool := JS.is_white.
(** [.] (no [s] flag): anything but a line terminator. *)
Definition dot (c : JS.char16) : bool :=
  negb ((JS.code c =? 10) || (JS.code c =? 13) || (JS.code c =? 8232) || (JS.code c =? 8233)).

End Regex.

(** ** The other password utilities *)

(** [s[k]] appended to a string: the code unit at [k], or the text of
    [undefined] when there is none. *)
Definition str_at (s : JS.jsstring) (k : nat) : JS.jsstring :=
  match nth_error s k with
  | Some c => [c]
  | None => JS.lit "undefined"
  end.

Definition charset : JS.jsstring :=
  JS.lit "ABCDEFGHIJKLMNOPQRSTUVWXYZabcdefghijklmnopqrstuvwxyz0123456789!@#$%^&*".

(** [array[i]] is read inside the bounds of the array: the loop stops at
    [length], the size of [array]. *)
Definition generateRandomPassword (length : nat) : prog JS.jsstring :=
  bind (Crypto.getRandomValues length) (fun array =>
  let password :=
    fold_left
      (fun password i =>
         password ++ str_at charset
           (Z.to_nat (Octet.to_Z (nth i array x00) mod Z.of_nat (List.length charset))))
      (seq 0 length) [] in
  ret password).

Record strength : Type := Strength {
  score : Z;
  feedback : list JS.jsstring;
  isStrong : bool
}.

(** The running pair of [score] and [feedback]. *)
Definition tally : Type := (Z * list JS.jsstring)%type.
Definition gain (t : tally) : tally := (fst t + 1, snd t).
Definition remark (msg : JS.jsstring) (t : tally) : tally := (fst t, snd t ++ [msg]).

Definition need_length : JS.jsstring := text "密码长度至少需要8个字符".
Definition need_lower : JS.jsstring := text "密码需要包含小写字母".
Definition need_upper : JS.jsstring := text "密码需要包含大写字母".
Definition need_digit : JS.jsstring := text "密码需要包含数字".
Definition need_special : JS.jsstring := text "密码需要包含特殊字符".

(** [[^a-zA-Z0-9]] *)
Definition not_alnum (c : JS.char16) : bool :=
  negb (Regex.lower c || Regex.upper c || Regex.digit c).

Definition checkPasswordStrength (password : JS.jsstring) : strength :=
  let len := Z.of_nat (List.length password) in
  let t := (0, []) in
  let t := if 8 <=? len then gain t else remark need_length t in
  let t := if 12 <=? len then gain t else t in
  let t := if Regex.search (Regex.one Regex.lower Regex.accept) password
           then gain t else remark need_lower t in
  let t := if Regex.search (Regex.one Regex.upper Regex.accept) password
           then gain t else remark need_upper t in
  let t := if Regex.search (Regex.one Regex.digit Regex.accept) password
           then gain t else remark need_digit t in
  let t := if Regex.search (Regex.one not_alnum Regex.accept) password
           then gain t else remark need_special t in
  let isStrong := (4 <=? fst t) && (8 <=? len) in
  Strength (Z.min (fst t) 4) (snd t) isStrong.

(** ** The validators of the registration and login forms *)

(** [[^\s@]] *)
Definition email_char (c : JS.char16) : bool := negb (Regex.space c || Regex.chr "@" c).

(** [/^[^\s@]+@[^\s@]+\.[^\s@]+$/] *)
Definition emailRegex : Regex.matcher :=
  Regex.plus email_char
    (Regex.one (Regex.chr "@")
       (Regex.plus email_char
          (Regex.one (Regex.chr ".")
             (Regex.plus email_char Regex.eos)))).

Definition validateEmail (email : JS.jsstring) : bool :=
  emailRegex email
  && (5 <=? Z.of_nat (List.length email))
  && (Z.of_nat (List.length email) <=? 254).

(** The [onChange] validator of the e-mail field of the login form:
    [None] is [undefined], no complaint. *)
Definition loginEmailValidator (value : JS.jsstring) : option JS.jsstring :=
  match value with
  | [] => Some (text "邮箱是必填项")
  | _ :: _ =>
      if negb (emailRegex value) then Some (text "请输入有效的邮箱地址") else None
  end.

(** [[\s\-()]] *)
Definition phone_filler (c : JS.char16) : bool :=
  Regex.space c || Regex.chr "-" c || Regex.chr "(" c || Regex.chr ")" c.

(** [/^\+?[1-9][\d]{0,15}$/] *)
Definition phoneRegex : Regex.matcher :=
  Regex.opt (Regex.chr "+")
    (Regex.one (Regex.range 49 57)
       (Regex.upto 15 Regex.digit Regex.eos)).

(** [phone.replace(/[\s\-()]/g, '')] drops every filler. *)
Definition validatePhone (phone : JS.jsstring) : bool :=
  phoneRegex (filter (fun c => negb (phone_filler c)) phone).

Record validation : Type := Validation {
  isValid : bool;
  errors : list JS.jsstring
}.

(** [(?=.*[p])]: a look-ahead for a character of the class after any
    characters of the line. *)
Definition ahead (p : JS.char16 -> bool) : Regex.matcher :=
  Regex.star Regex.dot (Regex.one p Regex.accept).

(** [[@$!%*?&]] *)
Definition listed_special (c : JS.char16) : bool :=
  Regex.chr "@" c || Regex.chr "$" c || Regex.chr "!" c || Regex.chr "%" c
  || Regex.chr "*" c || Regex.chr "?" c || Regex.chr "&" c.

Definition too_short : JS.jsstring := text "密码至少需要8个字符".
Definition no_lower : JS.jsstring := text "密码必须包含至少一个小写字母".
Definition no_upper : JS.jsstring := text "密码必须包含至少一个大写字母".
Definition no_digit : JS.jsstring := text "密码必须包含至少一个数字".
Definition no_special : JS.jsstring := text "密码必须包含至少一个特殊字符 (@$!%*?&)".

Definition validatePassword (password : JS.jsstring) : validation :=
  let errors := [] in
  let errors :=
    if Z.of_nat (List.length password) <? 8 then errors ++ [too_short] else errors in
  let errors :=
    if negb (Regex.search (ahead Regex.lower) password) then errors ++ [no_lower] else errors in
  let errors :=
    if negb (Regex.search (ahead Regex.upper) password) then errors ++ [no_upper] else errors in
  let errors :=
    if negb (Regex.search (ahead Regex.digit) password) then errors ++ [no_digit] else errors in
  let errors :=
    if negb (Regex.search (ahead listed_special) password)
    then errors ++ [no_special] else errors in
  Validation (List.length errors =? 0)%nat errors.

(** ** The user table operations that call the password utilities *)

(** The rows of [test_users] and the answer of the database client.  The
    client itself is outside the program: the query
    [from('test_users').select('*').eq('email', email).single()] is a
    parameter [single] of the operations.  Of the console the model keeps
    the [console.error] lines, without the error object of an answer (it
    is no exception); what [console.log] prints is left out. *)
Module Db.

Inductive gender : Type := male | female | other.

Record User : Type := {
  id : JS.jsstring;
  email : JS.jsstring;
  password : option JS.jsstring;
  first_name : JS.jsstring;
  last_name : JS.jsstring;
  phone : option JS.jsstring;
  birth_date : option JS.jsstring;
  user_gender : option gender;
  bio : option JS.jsstring;
  avatar_url : option JS.jsstring;
  created_at : JS.jsstring;
  updated_at : option JS.jsstring
}.

Record PostgrestError : Type := { message : JS.jsstring }.

(** [{ data, error }] *)
Record response : Type := Response {
  data : option User;
  error : option PostgrestError
}.

(** Whether a string that may be [undefined] counts as true in a condition:
    it is there and not empty. *)
Definition truthy (v : option JS.jsstring) : bool :=
  match v with
  | Some (_ :: _) => true
  | _ => false
  end.

Definition getUserByEmail (single : JS.jsstring -> prog response) (email : JS.jsstring)
  : prog (option User) :=
  try_catch
    (bind (single email) (fun r =>
     match error r with
     | Some _ =>
         bind (console_error "查询用户错误:" None) (fun _ => ret None)
     | None => ret (data r)
     end))
    (fun err =>
       bind (console_error "查询用户异常:" (Some err)) (fun _ => ret None)).

(** Inside the condition [user.password] is a non-empty string when
    [verifyPassword] is reached. *)
Definition verifyUser (single : JS.jsstring -> prog response)
    (email password : JS.jsstring) : prog (option User) :=
  try_catch
    (bind (getUserByEmail single email) (fun user =>
     match user with
     | None => ret None
     | Some u =>
         if truthy (Db.password u) then
           bind (verifyPassword password
                   (match Db.password u with Some h => h | None => [] end))
                (fun ok => if ok then ret (Some u) else ret None)
         else ret None
     end))
    (fun err =>
       bind (console_error "验证用户失败:" (Some err)) (fun _ => ret None)).

End Db.

(** ** The deprecated query function and its simulated fallback *)

(** [s.startsWith(p)] and [s.includes(p)] *)
Fixpoint starts_with (p s : JS.jsstring) : bool :=
  match p, s with
  | [], _ => true
  | c :: p', d :: s' => JS.char_eqb c d && starts_with p' s'
  | _ :: _, [] => false
  end.

Fixpoint includes (s p : JS.jsstring) : bool :=
  starts_with p s
  || match s with
     | _ :: s' => includes s' p
     | [] => false
     end.

(** The parameters of a statement are values of any kind, [V]; what lies
    outside the program is given: the lookup [checkEmailExists] of the user
    table and the clock. *)
Module Query.

Section External.

Variable V : Type.
Variable checkEmailExists : option V -> prog bool.
(** [Date.now()] and [new Date().toISOString()] *)
Variable Date_now : prog Z.
Variable Date_toISOString : prog JS.jsstring.

Inductive row : Type :=
| CountRow (count : Z)
| UserRow (id : JS.jsstring)
    (email first_name last_name phone birth_date gender bio avatar_url : option V)
    (created_at updated_at : JS.jsstring)
| PreferenceRow (id : JS.jsstring)
    (user_id newsletter notifications privacy_public marketing_emails : option V).

(** The test both functions make for the count of an e-mail address. *)
Definition counts_email (sql : JS.jsstring) : bool :=
  includes sql (JS.lit "SELECT COUNT(*)")
  && includes sql (JS.lit "FROM public.test_users")
  && includes sql (JS.lit "WHERE email").

(** The half second the function waits first is not modelled. *)
Definition simulateDatabaseQuery (sql : JS.jsstring) (params : list V) : prog (list row) :=
  if counts_email sql then ret [CountRow 0]
  else if includes sql (JS.lit "INSERT INTO public.test_users") then
    bind Date_now (fun ms =>
    bind Date_toISOString (fun created =>
    bind Date_toISOString (fun updated =>
    ret [UserRow (JS.lit "mock-user-" ++ JS.Number_toString 10 (JS.Int ms))
           (nth_error params 0) (nth_error params 1) (nth_error params 2)
           (nth_error params 3) (nth_error params 4) (nth_error params 5)
           (nth_error params 6) (nth_error params 7) created updated])))
  else if includes sql (JS.lit "INSERT INTO public.test_user_preferences") then
    bind Date_now (fun ms =>
    ret [PreferenceRow (JS.lit "mock-pref-" ++ JS.Number_toString 10 (JS.Int ms))
           (nth_error params 0) (nth_error params 1) (nth_error params 2)
           (nth_error params 3) (nth_error params 4)])
  else ret [].

Definition queryDatabase (sql : JS.jsstring) (params : list V) : prog (list row) :=
  try_catch
    (if counts_email sql then
       let email := nth_error params 0 in
       bind (checkEmailExists email) (fun exists_ =>
       ret [CountRow (if exists_ then 1 else 0)])
     else ret [])
    (fun error =>
       bind (console_error "回退查询失败:" (Some error)) (fun _ =>
       simulateDatabaseQuery sql params)).

End External.

End Query.

(** ** Vocabulary of the further properties *)

(** The character [generateRandomPassword] takes for the octet [b]. *)
Definition pick (b : byte) : JS.char16 :=
  nth (Z.to_nat (Octet.to_Z b mod 70)) charset zero_char.

(** The octets the next call of [getRandomValues] for [n] octets reads. *)
Definition drawn (n : nat) (w : world) : list byte := map (tape w) (seq (cursor w) n).

(** The four classes [checkPasswordStrength] looks for, and how many of
    them a password has. *)
Definition has_lower (s : JS.jsstring) : bool := existsb Regex.lower s.
Definition has_upper (s : JS.jsstring) : bool := existsb Regex.upper s.
Definition has_digit (s : JS.jsstring) : bool := existsb Regex.digit s.
Definition has_special (s : JS.jsstring) : bool := existsb not_alnum s.
Definition classes (s : JS.jsstring) : Z :=
  Z.b2z (has_lower s) + Z.b2z (has_upper s) + Z.b2z (has_digit s) + Z.b2z (has_special s).

(** The length of a string, as [s.length]. *)
Definition len (s : JS.jsstring) : Z := Z.of_nat (List.length s).

(** The 256 octets. *)
Definition all_octets : list byte := map (fun n => Octet.of_Z (Z.of_nat n)) (seq 0 256).

(** How many octets make [generateRandomPassword] take the character at
    index [j] of the charset. *)
Definition octets_for (j : nat) : nat :=
  List.length (filter (fun b => JS.char_eqb (pick b) (nth j charset zero_char)) all_octets).

(** The characters [@], [.] and [+]. *)
Definition at_sign : JS.char16 := JS.of_ascii "@".
Definition full_stop : JS.char16 := JS.of_ascii ".".
Definition plus_sign : JS.char16 := JS.of_ascii "+".

(** A non-empty run of characters that are neither blank nor [@]. *)
Definition email_part (s : JS.jsstring) : Prop := s <> [] /\ forallb email_char s = true.

(** A string of the shape [local@domain.tail]. *)
Definition email_shape (e : JS.jsstring) : Prop :=
  exists a b c,
    e = a ++ at_sign :: b ++ full_stop :: c
    /\ email_part a /\ email_part b /\ email_part c.

(** A telephone number with its fillers dropped. *)
Definition dial (phone : JS.jsstring) : JS.jsstring :=
  filter (fun c => negb (phone_filler c)) phone.

(** An optional [+], a digit from 1 to 9, then at most fifteen digits. *)
Definition phone_shape (s : JS.jsstring) : Prop :=
  exists sign d ds,
    s = sign ++ d :: ds
    /\ (sign = [] \/ sign = [plus_sign])
    /\ Regex.range 49 57 d = true
    /\ forallb Regex.digit ds = true
    /\ (List.length ds <= 15)%nat.

(** How often the code unit [c] occurs in [s]. *)
Definition occurrences (c : JS.char16) (s : JS.jsstring) : nat :=
  List.length (filter (JS.char_eqb c) s).

(** A code unit of the ASCII range. *)
Definition is_ascii (c : JS.char16) : bool := JS.code c <? 128.

(** Text after the digits of a number that [parseInt] leaves unread without
    changing the number: empty, or starting with a code unit that is neither
    a decimal digit nor the [x] of a hexadecimal prefix. *)
Definition unread_tail (s : JS.jsstring) : bool :=
  match s with
  | [] => true
  | c :: _ =>
      match JS.digit_value 10 c with
      | Some _ => false
      | None => negb ((JS.code c =? 120) || (JS.code c =? 88))
      end
  end.

(** The four remarks of [checkPasswordStrength] about character classes. *)
Definition class_remarks : list JS.jsstring := [need_lower; need_upper; need_digit; need_special].

(** ** Test vectors *)

Example sha256_constants :
  nth 0 SHA256.K 0 = 0x428a2f98 /\ nth 63 SHA256.K 0 = 0xc67178f2
  /\ List.length SHA256.K = 64%nat
  /\ SHA256.ra SHA256.H0 = 0x6a09e667 /\ SHA256.rh SHA256.H0 = 0x5be0cd19.
Proof. repeat split. Qed.

Example sha256_abc :
  hex (SHA256.digest (bytes_of_ascii "abc"))
  = JS.lit "ba7816bf8f01cfea414140de5dae2223b00361a396177a9cb410ff61f20015ad".
Proof. vm_compute. reflexivity. Qed.

Example sha256_two_blocks :
  hex (SHA256.digest (bytes_of_ascii "abcdbcdecdefdefgefghfghighijhijkijkljklmklmnlmnomnopnopq"))
  = JS.lit "248d6a61d20638b8e5c026930c3e6039a33ce45964ff2167f6ecedd419db06c1".
Proof. vm_compute. reflexivity. Qed.

Example hmac_rfc4231_case2 :
  hex (Crypto.hmac (bytes_of_ascii "Jefe") (bytes_of_ascii "what do ya want for nothing?"))
  = JS.lit "5bdcc146bf60754e6a042426089575c75a003f089d2739839dec58b964ec3843".
Proof. vm_compute. reflexivity. Qed.

Example hmac_rfc4231_case6 :
  hex (Crypto.hmac (repeat xaa 131)
         (bytes_of_ascii "Test Using Larger Than Block-Size Key - Hash Key First"))
  = JS.lit "60e431591ee0b67f0d8a26aacbf5b77f8e0bc6213728c5140546040f0ee37f54".
Proof. vm_compute. reflexivity. Qed.

Example hashPassword_one_iteration :
  result (hashPassword (JS.lit "password") (JS.lit "salt") (JS.Int 1)) world0
  = Return (JS.lit "120fb6cffcf8b32c43e7225256c4f837a86548c92ccc35480805987cb70be17b").
Proof. vm_compute. reflexivity. Qed.

Example hashPassword_two_iterations :
  result (hashPassword (JS.lit "password") (JS.lit "salt") (JS.Int 2)) world0
  = Return (JS.lit "ae4d0c95af6b46d32d0adff928f06dd02a303f8ef3c251dfd6e2d85a95474c43").
Proof. vm_compute. reflexivity. Qed.


(** ** Code units and strings *)

Lemma to_Z_range (b : byte) : 0 <= Octet.to_Z b < 256.
Proof.
  unfold Octet.to_Z. pose proof (Byte.to_N_bounded b). lia.
Qed.

Lemma of_to_Z (b : byte) : Octet.of_Z (Octet.to_Z b) = b.
Proof.
  unfold Octet.of_Z, Octet.to_Z.
  rewrite Z.mod_small by (pose proof (Byte.to_N_bounded b); lia).
  rewrite N2Z.id, Byte.of_to_N. reflexivity.
Qed.

Lemma to_Z_inj (a b : byte) : Octet.to_Z a = Octet.to_Z b -> a = b.
Proof.
  intros H. rewrite <- (of_to_Z a), <- (of_to_Z b), H. reflexivity.
Qed.

Lemma code_range (c : JS.char16) : 0 <= JS.code c < 65536.
Proof.
  unfold JS.code. pose proof (to_Z_range (JS.hi c)). pose proof (to_Z_range (JS.lo c)). lia.
Qed.

Lemma code_inj (c d : JS.char16) : JS.code c = JS.code d -> c = d.
Proof.
  destruct c as [h l], d as [h' l']. unfold JS.code. cbn [JS.hi JS.lo]. intros H.
  pose proof (to_Z_range h). pose proof (to_Z_range l).
  pose proof (to_Z_range h'). pose proof (to_Z_range l').
  assert (Octet.to_Z h = Octet.to_Z h') by lia.
  assert (Octet.to_Z l = Octet.to_Z l') by lia.
  f_equal; apply to_Z_inj; assumption.
Qed.

Lemma char_eqb_eq (c d : JS.char16) : JS.char_eqb c d = true <-> c = d.
Proof.
  destruct c as [h l], d as [h' l']. unfold JS.char_eqb. cbn [JS.hi JS.lo].
  rewrite andb_true_iff. split.
  - intros [H1 H2]. apply Byte.byte_dec_bl in H1, H2. congruence.
  - intros H. injection H as -> ->. split; apply Byte.byte_dec_lb; reflexivity.
Qed.

Lemma char_eqb_refl (c : JS.char16) : JS.char_eqb c c = true.
Proof. apply char_eqb_eq. reflexivity. Qed.

Lemma str_eqb_eq (s t : JS.jsstring) : JS.str_eqb s t = true <-> s = t.
Proof.
  revert t. induction s as [|c s IH]; intros [|d t]; cbn [JS.str_eqb]; try (split; congruence).
  rewrite andb_true_iff, char_eqb_eq, IH. split.
  - intros [-> ->]. reflexivity.
  - intros H. injection H as -> ->. split; reflexivity.
Qed.

Lemma str_eqb_refl (s : JS.jsstring) : JS.str_eqb s s = true.
Proof. apply str_eqb_eq. reflexivity. Qed.

(** ** Splitting *)

Lemma split_free (sep : JS.char16) (s : JS.jsstring) :
  free_of sep s = true -> JS.split sep s = [s].
Proof.
  induction s as [|c s IH]; cbn [free_of forallb JS.split]; [reflexivity|].
  rewrite andb_true_iff, negb_true_iff. intros [Hc Hs].
  rewrite Hc. fold (free_of sep s) in Hs. rewrite (IH Hs). reflexivity.
Qed.

Lemma split_app (sep : JS.char16) (s t : JS.jsstring) :
  free_of sep s = true -> JS.split sep (s ++ sep :: t) = s :: JS.split sep t.
Proof.
  induction s as [|c s IH]; cbn [free_of forallb JS.split app].
  - intros _. rewrite char_eqb_refl. reflexivity.
  - rewrite andb_true_iff, negb_true_iff. intros [Hc Hs].
    rewrite Hc. fold (free_of sep s) in Hs. rewrite (IH Hs). reflexivity.
Qed.

Lemma split_nonempty (sep : JS.char16) (s : JS.jsstring) : JS.split sep s <> [].
Proof.
  destruct s as [|c s]; cbn [JS.split]; [discriminate|].
  destruct (JS.char_eqb c sep); [discriminate|].
  destruct (JS.split sep s); discriminate.
Qed.

Lemma free_of_app (sep : JS.char16) (s t : JS.jsstring) :
  free_of sep (s ++ t) = free_of sep s && free_of sep t.
Proof. apply forallb_app. Qed.

Lemma hex_string_free (s : JS.jsstring) : hex_string s = true -> free_of dollar s = true.
Proof.
  unfold hex_string, free_of. rewrite !forallb_forall. intros H c Hc.
  specialize (H c Hc). apply negb_true_iff.
  destruct (JS.char_eqb c dollar) eqn:E; [|reflexivity].
  apply char_eqb_eq in E. subst c. discriminate H.
Qed.

(** ** Hexadecimal rendering *)

Lemma hex_byte_shape (b : byte) :
  List.length (hex_byte b) = 2%nat /\ hex_string (hex_byte b) = true.
Proof. destruct b; split; reflexivity. Qed.

Lemma hex_length (bs : list byte) : List.length (hex bs) = (2 * List.length bs)%nat.
Proof.
  unfold hex, JS.join. induction bs as [|b bs IH]; [reflexivity|].
  cbn [map List.concat]. rewrite length_app, IH.
  destruct (hex_byte_shape b) as [-> _]. cbn [List.length]. lia.
Qed.

Lemma hex_is_hex (bs : list byte) : hex_string (hex bs) = true.
Proof.
  unfold hex, JS.join. induction bs as [|b bs IH]; [reflexivity|].
  cbn [map List.concat]. unfold hex_string in *. rewrite forallb_app, IH.
  destruct (hex_byte_shape b) as [_ H]. unfold hex_string in H. rewrite H. reflexivity.
Qed.

(** ** The derived key has 32 octets *)

Lemma digest_length (msg : list byte) : List.length (SHA256.digest msg) = 32%nat.
Proof. reflexivity. Qed.

Lemma hmac_length (key msg : list byte) : List.length (Crypto.hmac key msg) = 32%nat.
Proof. unfold Crypto.hmac. apply digest_length. Qed.

Lemma xor_bytes_length (xs ys : list byte) :
  List.length xs = List.length ys ->
  List.length (Octet.xor_bytes xs ys) = List.length xs.
Proof.
  revert ys. induction xs as [|x xs IH]; intros [|y ys] H; cbn in *; try congruence.
  f_equal. apply IH. congruence.
Qed.

Section PRF.

Variable prf : list byte -> list byte.
Hypothesis prf_length : forall m, List.length (prf m) = 32%nat.

Lemma F_length (salt : list byte) (c i : Z) :
  List.length (Crypto.F prf salt c i) = 32%nat.
Proof.
  unfold Crypto.F.
  set (inv := fun ut : list byte * list byte =>
                List.length (fst ut) = 32%nat /\ List.length (snd ut) = 32%nat).
  assert (H : inv (N.iter (Z.to_N (c - 1)) (Crypto.F_step prf)
                     (prf (salt ++ Crypto.int32_be i), prf (salt ++ Crypto.int32_be i)))).
  { apply N.iter_invariant.
    - intros [u t] [Hu Ht]. unfold inv, Crypto.F_step in *. cbn [fst snd] in *.
      split; [apply prf_length|].
      rewrite xor_bytes_length; [assumption|]. rewrite Ht, prf_length. reflexivity.
    - unfold inv. cbn [fst snd]. split; apply prf_length. }
  exact (proj2 H).
Qed.

Lemma pbkdf2_one_block (salt : list byte) (c : Z) :
  Crypto.pbkdf2 prf salt c 32 = Crypto.F prf salt c 1.
Proof.
  unfold Crypto.pbkdf2.
  change (Nat.div (32 + 31) 32) with 1%nat. cbn [seq flat_map].
  rewrite app_nil_r. change (Z.of_nat 1) with 1.
  rewrite <- (F_length salt c 1) at 1. apply firstn_all.
Qed.

Lemma pbkdf2_length (salt : list byte) (c : Z) :
  List.length (Crypto.pbkdf2 prf salt c 32) = 32%nat.
Proof. rewrite pbkdf2_one_block. apply F_length. Qed.

End PRF.

Lemma derive_length (password salt : JS.jsstring) (c : Z) :
  List.length (derive password salt c) = 32%nat.
Proof. unfold derive. apply pbkdf2_length. intros m. apply hmac_length. Qed.

(** ** What a call of [hashPassword] does *)

Lemma hashPassword_run (password salt : JS.jsstring) (c : Z) (w : world) :
  valid_iterations c = true ->
  hashPassword password salt (JS.Int c) w = (Return (digest_of password salt c), w).
Proof.
  unfold valid_iterations. rewrite andb_true_iff, Z.leb_le, Z.leb_le. intros [H1 H2].
  unfold hashPassword, bind, Crypto.importKey, Crypto.deriveBits, ret.
  replace (c <? 0) with false by (symmetry; apply Z.ltb_ge; lia).
  replace (4294967295 <? c) with false by (symmetry; apply Z.ltb_ge; lia).
  replace (c =? 0) with false by (symmetry; apply Z.eqb_neq; lia).
  reflexivity.
Qed.

Lemma hashPassword_throws (password salt : JS.jsstring) (c : Z) (w : world) :
  valid_iterations c = false ->
  exists e, hashPassword password salt (JS.Int c) w = (Throw e, w).
Proof.
  unfold valid_iterations. intros H.
  unfold hashPassword, bind, Crypto.importKey, Crypto.deriveBits, ret, throw.
  destruct (c <? 0) eqn:E1; cbn [orb]; [eexists; reflexivity|].
  destruct (4294967295 <? c) eqn:E2; [eexists; reflexivity|].
  destruct (c =? 0) eqn:E3; [eexists; reflexivity|].
  apply Z.ltb_ge in E1, E2. apply Z.eqb_neq in E3.
  apply andb_false_iff in H. destruct H as [H|H]; apply Z.leb_gt in H; lia.
Qed.

Lemma hashPassword_NaN (password salt : JS.jsstring) (w : world) :
  hashPassword password salt JS.NaN w = (Throw TypeError, w).
Proof. reflexivity. Qed.

(** ** The comparison loop *)

Lemma ToInt32_small (z : Z) : 0 <= z < 65536 -> JS.ToInt32 (JS.Int z) = z.
Proof. intros H. unfold JS.ToInt32. rewrite Z.mod_small by lia. lia. Qed.

Lemma below_pow2_log2 (x : Z) : 0 <= x < 65536 -> Z.log2 x < 16.
Proof.
  intros H. destruct (Z.eq_dec x 0) as [->|Hx]; [reflexivity|].
  apply Z.log2_lt_pow2; lia.
Qed.

Lemma lxor_16 (x y : Z) : 0 <= x < 65536 -> 0 <= y < 65536 -> 0 <= Z.lxor x y < 65536.
Proof.
  intros Hx Hy.
  assert (H0 : 0 <= Z.lxor x y) by (apply Z.lxor_nonneg; lia).
  split; [assumption|].
  destruct (Z.eq_dec (Z.lxor x y) 0) as [->|Hn]; [lia|].
  change 65536 with (2 ^ 16). apply Z.log2_lt_pow2; [lia|].
  pose proof (Z.log2_lxor x y (proj1 Hx) (proj1 Hy)).
  pose proof (below_pow2_log2 x Hx). pose proof (below_pow2_log2 y Hy). lia.
Qed.

Lemma lor_16 (x y : Z) : 0 <= x < 65536 -> 0 <= y < 65536 -> 0 <= Z.lor x y < 65536.
Proof.
  intros Hx Hy.
  assert (H0 : 0 <= Z.lor x y) by (apply Z.lor_nonneg; lia).
  split; [assumption|].
  destruct (Z.eq_dec (Z.lor x y) 0) as [->|Hn]; [lia|].
  change 65536 with (2 ^ 16). apply Z.log2_lt_pow2; [lia|].
  pose proof (Z.log2_lor x y (proj1 Hx) (proj1 Hy)).
  pose proof (below_pow2_log2 x Hx). pose proof (below_pow2_log2 y Hy). lia.
Qed.

(** One turn of the loop at an index inside both strings. *)
Lemma compare_step (r : Z) (c d : JS.char16) :
  0 <= r < 65536 ->
  exists r', JS.bitor (JS.Int r) (JS.bitxor (JS.Int (JS.code c)) (JS.Int (JS.code d))) = JS.Int r'
             /\ 0 <= r' < 65536
             /\ (r' = 0 <-> r = 0 /\ c = d).
Proof.
  intros Hr. pose proof (code_range c) as Hc. pose proof (code_range d) as Hd.
  pose proof (lxor_16 _ _ Hc Hd) as Hx.
  pose proof (lor_16 _ _ Hr Hx) as Ho.
  exists (Z.lor r (Z.lxor (JS.code c) (JS.code d))).
  split; [|split; [exact Ho|]].
  - unfold JS.bitor, JS.bitxor.
    rewrite (ToInt32_small (JS.code c)), (ToInt32_small (JS.code d)) by assumption.
    rewrite (ToInt32_small (Z.lxor _ _)) by assumption.
    rewrite (ToInt32_small r) by assumption.
    rewrite (ToInt32_small (Z.lxor _ _)) by assumption.
    rewrite (ToInt32_small (Z.lor _ _)) by assumption. reflexivity.
  - rewrite Z.lor_eq_0_iff. split.
    + intros [H1 H2]. split; [assumption|]. apply code_inj, Z.lxor_eq, H2.
    + intros [H1 ->]. split; [assumption|]. apply Z.lxor_nilpotent.
Qed.

Lemma compare_loop (a b : JS.jsstring) (indices : list nat) (r : Z) :
  0 <= r < 65536 ->
  (forall i, In i indices -> (i < List.length a)%nat /\ (i < List.length b)%nat) ->
  exists r',
    fold_left
      (fun result i => JS.bitor result (JS.bitxor (JS.charCodeAt a i) (JS.charCodeAt b i)))
      indices (JS.Int r) = JS.Int r'
    /\ 0 <= r' < 65536
    /\ (r' = 0 <-> r = 0 /\ forall i, In i indices -> nth_error a i = nth_error b i).
Proof.
  revert r. induction indices as [|i indices IH]; intros r Hr Hin.
  - exists r. cbn [fold_left]. split; [reflexivity|]. split; [assumption|].
    split; [intros ->; split; [reflexivity|intros i []]|intros [-> _]; reflexivity].
  - cbn [fold_left].
    destruct (Hin i (or_introl eq_refl)) as [Ha Hb].
    destruct (nth_error a i) as [c|] eqn:Ea; [|apply nth_error_None in Ea; lia].
    destruct (nth_error b i) as [d|] eqn:Eb; [|apply nth_error_None in Eb; lia].
    assert (Hca : JS.charCodeAt a i = JS.Int (JS.code c))
      by (unfold JS.charCodeAt; rewrite Ea; reflexivity).
    assert (Hcb : JS.charCodeAt b i = JS.Int (JS.code d))
      by (unfold JS.charCodeAt; rewrite Eb; reflexivity).
    rewrite Hca, Hcb.
    destruct (compare_step r c d Hr) as (r1 & -> & Hr1 & Hz1).
    destruct (IH r1 Hr1 (fun j Hj => Hin j (or_intror Hj))) as (r2 & E2 & Hr2 & Hz2).
    exists r2. split; [exact E2|]. split; [assumption|].
    rewrite Hz2, Hz1. split.
    + intros [[H0 ->] Hrest]. split; [assumption|].
      intros j [<-|Hj]; [congruence|apply Hrest, Hj].
    + intros [H0 Hall]. split; [split; [assumption|]|].
      * specialize (Hall i (or_introl eq_refl)). congruence.
      * intros j Hj. apply Hall. right. exact Hj.
Qed.

Lemma constantTimeCompare_true_iff (a b : JS.jsstring) :
  constantTimeCompare a b = true <-> a = b.
Proof.
  unfold constantTimeCompare.
  destruct (List.length a =? List.length b)%nat eqn:El; cbn [negb].
  - apply Nat.eqb_eq in El.
    destruct (compare_loop a b (seq 0 (List.length a)) 0 ltac:(lia)) as (r & -> & Hr & Hz).
    { intros i Hi. apply in_seq in Hi. lia. }
    cbn [JS.num_eqb]. rewrite Z.eqb_eq, Hz. split.
    + intros [_ Hall]. apply nth_error_ext. intros i.
      destruct (Nat.lt_ge_cases i (List.length a)) as [Hlt|Hge].
      * apply Hall, in_seq. lia.
      * rewrite (proj2 (nth_error_None a i)) by lia.
        rewrite (proj2 (nth_error_None b i)) by lia. reflexivity.
    + intros ->. split; [reflexivity|]. intros; reflexivity.
  - split; [discriminate|]. intros ->. rewrite Nat.eqb_refl in El. discriminate.
Qed.

Lemma constantTimeCompare_str_eqb (a b : JS.jsstring) :
  constantTimeCompare a b = JS.str_eqb a b.
Proof.
  destruct (JS.str_eqb a b) eqn:E.
  - apply constantTimeCompare_true_iff, str_eqb_eq, E.
  - destruct (constantTimeCompare a b) eqn:E'; [|reflexivity].
    apply constantTimeCompare_true_iff, str_eqb_eq in E'. congruence.
Qed.

(** ** Printing and parsing the iteration count *)

Lemma to_of_Z (z : Z) : 0 <= z < 256 -> Octet.to_Z (Octet.of_Z z) = z.
Proof.
  intros H. unfold Octet.of_Z, Octet.to_Z. rewrite Z.mod_small by lia.
  destruct (Byte.of_N (Z.to_N z)) as [b|] eqn:E.
  - apply Byte.to_of_N in E. rewrite E. lia.
  - apply Byte.of_N_None_iff in E. lia.
Qed.

Lemma code_digit_char (d : Z) : is_decimal d -> JS.code (JS.digit_char d) = 48 + d.
Proof.
  unfold is_decimal. intros H. unfold JS.digit_char, JS.code. cbn [JS.hi JS.lo].
  replace (d <? 10) with true by (symmetry; apply Z.ltb_lt; lia).
  rewrite to_of_Z by lia. reflexivity.
Qed.

Lemma decimal_cases (d : Z) :
  is_decimal d ->
  d = 0 \/ d = 1 \/ d = 2 \/ d = 3 \/ d = 4 \/ d = 5 \/ d = 6 \/ d = 7 \/ d = 8 \/ d = 9.
Proof. unfold is_decimal. lia. Qed.

Ltac each_decimal H :=
  apply decimal_cases in H;
  repeat (destruct H as [H|H]; [subst; reflexivity|]); subst; reflexivity.

Lemma digit_char_not_white (d : Z) : is_decimal d -> JS.is_white (JS.digit_char d) = false.
Proof. intros H. each_decimal H. Qed.

Lemma digit_char_value (d : Z) :
  is_decimal d -> JS.digit_value 10 (JS.digit_char d) = Some d.
Proof. intros H. each_decimal H. Qed.

Lemma digit_prefix_digits (ds : list Z) :
  Forall is_decimal ds -> JS.digit_prefix 10 (map JS.digit_char ds) = ds.
Proof.
  induction 1 as [|d ds Hd _ IH]; [reflexivity|].
  cbn [map JS.digit_prefix]. rewrite (digit_char_value d Hd), IH. reflexivity.
Qed.

Lemma parseInt_digits (d : Z) (ds : list Z) :
  Forall is_decimal (d :: ds) ->
  JS.parseInt (map JS.digit_char (d :: ds)) = JS.Int (JS.digits_value 10 (d :: ds)).
Proof.
  intros Hall. pose proof (digit_prefix_digits _ Hall) as Hp.
  inversion Hall as [|? ? Hd Hds]; subst.
  unfold JS.parseInt. cbn [map JS.trim_start] in *.
  rewrite (digit_char_not_white d Hd).
  rewrite (code_digit_char d Hd).
  replace (48 + d =? 45) with false by (symmetry; apply Z.eqb_neq; unfold is_decimal in Hd; lia).
  replace (48 + d =? 43) with false by (symmetry; apply Z.eqb_neq; unfold is_decimal in Hd; lia).
  destruct ds as [|d' ds'].
  - cbn [map] in *. rewrite Hp. f_equal. lia.
  - inversion Hds as [|? ? Hd' _]; subst. cbn [map] in *.
    rewrite (code_digit_char d Hd), (code_digit_char d' Hd').
    replace (48 + d' =? 120) with false
      by (symmetry; apply Z.eqb_neq; unfold is_decimal in Hd'; lia).
    replace (48 + d' =? 88) with false
      by (symmetry; apply Z.eqb_neq; unfold is_decimal in Hd'; lia).
    rewrite andb_false_r. rewrite Hp. f_equal. lia.
Qed.

Lemma digits_value_app (ds : list Z) (d : Z) :
  JS.digits_value 10 (ds ++ [d]) = JS.digits_value 10 ds * 10 + d.
Proof. unfold JS.digits_value. rewrite fold_left_app. reflexivity. Qed.

Lemma digits_fuel_spec (fuel : nat) (n : Z) :
  0 <= n < 2 ^ (Z.of_nat fuel + 1) ->
  let ds := JS.digits_fuel (S fuel) 10 n in
  Forall is_decimal ds /\ ds <> [] /\ JS.digits_value 10 ds = n.
Proof.
  revert n. induction fuel as [|fuel IH]; intros n Hn.
  - change (2 ^ (Z.of_nat 0 + 1)) with 2 in Hn. cbn [JS.digits_fuel].
    replace (n <? 10) with true by (symmetry; apply Z.ltb_lt; lia).
    split; [|split; [discriminate|unfold JS.digits_value; cbn; lia]].
    constructor; [unfold is_decimal; lia|constructor].
  - cbn zeta. change (JS.digits_fuel (S (S fuel)) 10 n)
      with (if n <? 10 then [n] else JS.digits_fuel (S fuel) 10 (n / 10) ++ [n mod 10]).
    destruct (n <? 10) eqn:E.
    + apply Z.ltb_lt in E.
      split; [|split; [discriminate|unfold JS.digits_value; cbn; lia]].
      constructor; [unfold is_decimal; lia|constructor].
    + apply Z.ltb_ge in E.
      assert (Hq : 0 <= n / 10 < 2 ^ (Z.of_nat fuel + 1)).
      { split; [apply Z.div_pos; lia|].
        apply Z.div_lt_upper_bound; [lia|].
        replace (Z.of_nat (S fuel) + 1) with (Z.succ (Z.of_nat fuel + 1)) in Hn by lia.
        rewrite Z.pow_succ_r in Hn by lia. lia. }
      destruct (IH (n / 10) Hq) as (Hall & Hne & Hval).
      split; [|split].
      * apply Forall_app. split; [assumption|].
        constructor; [|constructor]. unfold is_decimal.
        pose proof (Z.mod_pos_bound n 10 ltac:(lia)); lia.
      * intros Habs. apply app_eq_nil in Habs. destruct Habs as [_ Habs]; discriminate.
      * rewrite digits_value_app, Hval.
        pose proof (Z.div_mod n 10 ltac:(lia)). lia.
Qed.

Lemma digits_spec (n : Z) :
  0 <= n ->
  Forall is_decimal (JS.digits 10 n) /\ JS.digits 10 n <> []
  /\ JS.digits_value 10 (JS.digits 10 n) = n.
Proof.
  intros Hn. unfold JS.digits. apply digits_fuel_spec.
  rewrite Z2Nat.id by apply Z.log2_nonneg.
  split; [assumption|].
  destruct (Z.eq_dec n 0) as [->|Hz]; [reflexivity|].
  replace (Z.log2 n + 1) with (Z.succ (Z.log2 n)) by lia.
  apply Z.log2_spec. lia.
Qed.

Lemma parseInt_toString (n : Z) :
  0 <= n -> JS.parseInt (JS.Number_toString 10 (JS.Int n)) = JS.Int n.
Proof.
  intros Hn. unfold JS.Number_toString.
  replace (n <? 0) with false by (symmetry; apply Z.ltb_ge; lia).
  destruct (digits_spec n Hn) as (Hall & Hne & Hval).
  destruct (JS.digits 10 n) as [|d ds]; [congruence|].
  rewrite parseInt_digits by assumption. rewrite Hval. reflexivity.
Qed.

Lemma digit_char_free (d : Z) :
  is_decimal d -> JS.char_eqb (JS.digit_char d) dollar = false.
Proof. intros H. each_decimal H. Qed.

Lemma toString_free (n : Z) :
  0 <= n -> free_of dollar (JS.Number_toString 10 (JS.Int n)) = true.
Proof.
  intros Hn. unfold JS.Number_toString.
  replace (n <? 0) with false by (symmetry; apply Z.ltb_ge; lia).
  destruct (digits_spec n Hn) as (Hall & _ & _).
  unfold free_of. rewrite forallb_forall. intros c Hc.
  apply in_map_iff in Hc. destruct Hc as (d & <- & Hd).
  rewrite Forall_forall in Hall. rewrite (digit_char_free d (Hall d Hd)). reflexivity.
Qed.

(** ** What [generateSalt], [createPasswordHash] and [verifyPassword] do *)

Lemma generateSalt_run (w : world) :
  generateSalt 16 w = (Return (drawn_salt w), advance 16 w).
Proof. reflexivity. Qed.

Lemma createPasswordHash_run (password : JS.jsstring) (w : world) :
  createPasswordHash password w
  = (Return (encoded_record (JS.Int 100000) (drawn_salt w)
               (digest_of password (drawn_salt w) 100000)),
     advance 16 w).
Proof.
  unfold createPasswordHash, bind. rewrite generateSalt_run.
  rewrite hashPassword_run by reflexivity. reflexivity.
Qed.

Lemma split_record (n : Z) (salt digest : JS.jsstring) :
  0 <= n -> free_of dollar salt = true -> free_of dollar digest = true ->
  JS.split dollar (encoded_record (JS.Int n) salt digest)
  = [[]; JS.lit "pbkdf2"; JS.Number_toString 10 (JS.Int n); salt; digest].
Proof.
  intros Hn Hs Hd.
  assert (E : encoded_record (JS.Int n) salt digest
              = [] ++ dollar :: (JS.lit "pbkdf2" ++ dollar ::
                  (JS.Number_toString 10 (JS.Int n) ++ dollar :: (salt ++ dollar :: digest))))
    by reflexivity.
  rewrite E.
  rewrite split_app by reflexivity.
  rewrite split_app by reflexivity.
  rewrite split_app by (apply toString_free; assumption).
  rewrite split_app by assumption.
  rewrite split_free by assumption. reflexivity.
Qed.

(** With five parts and the right tag, the guard is passed and the password
    is hashed again with the salt and the count of the record. *)
Lemma verifyPassword_parts (password r e i salt stored : JS.jsstring) (w : world) :
  JS.split dollar r = [e; JS.lit "pbkdf2"; i; salt; stored] ->
  verifyPassword password r w
  = match hashPassword password salt (JS.parseInt i) w with
    | (Return h, w') => (Return (constantTimeCompare h stored), w')
    | (Throw err, w') =>
        (Return false,
         World (tape w') (cursor w')
           (console w' ++ [LogError "Password verification error:" (Some err)]))
    end.
Proof.
  intros Hs. unfold verifyPassword, try_catch, bind. rewrite Hs.
  cbn [List.length Nat.eqb negb orb JS.index nth_error JS.strict_neq nth].
  rewrite str_eqb_refl. cbn [negb].
  destruct (hashPassword password salt (JS.parseInt i) w) as [[h|err] w']; reflexivity.
Qed.

Lemma verifyPassword_wellformed (password r e i salt stored : JS.jsstring) (c : Z) (w : world) :
  JS.split dollar r = [e; JS.lit "pbkdf2"; i; salt; stored] ->
  JS.parseInt i = JS.Int c ->
  valid_iterations c = true ->
  verifyPassword password r w = (Return (JS.str_eqb (digest_of password salt c) stored), w).
Proof.
  intros Hs Hi Hc. rewrite (verifyPassword_parts _ _ _ _ _ _ _ Hs), Hi.
  rewrite hashPassword_run by assumption.
  rewrite constantTimeCompare_str_eqb. reflexivity.
Qed.

(** The [catch] clause turns every exception into [false]. *)
Lemma verifyPassword_returns (password r : JS.jsstring) (w : world) :
  exists b, result (verifyPassword password r) w = Return b.
Proof.
  unfold result, verifyPassword, try_catch.
  match goal with |- context [match ?body w with _ => _ end] => destruct (body w) as [[b|err] w'] end.
  - exists b. reflexivity.
  - exists false. reflexivity.
Qed.

Lemma digest_of_free (password salt : JS.jsstring) (c : Z) :
  free_of dollar (digest_of password salt c) = true.
Proof. apply hex_string_free, hex_is_hex. Qed.

Lemma drawn_salt_free (w : world) : free_of dollar (drawn_salt w) = true.
Proof. apply hex_string_free, hex_is_hex. Qed.

(** Verifying [candidate] against the record made for [password] compares
    the two digests derived under the salt of the record. *)
Lemma verify_created (password candidate : JS.jsstring) (w w' : world) :
  verifyPassword candidate
    (encoded_record (JS.Int 100000) (drawn_salt w) (digest_of password (drawn_salt w) 100000)) w'
  = (Return (JS.str_eqb (digest_of candidate (drawn_salt w) 100000)
                        (digest_of password (drawn_salt w) 100000)), w').
Proof.
  apply verifyPassword_wellformed with (e := []) (i := JS.Number_toString 10 (JS.Int 100000)).
  - apply split_record; [lia|apply drawn_salt_free|apply digest_of_free].
  - reflexivity.
  - reflexivity.
Qed.

(** ** Keys that HMAC does not tell apart *)

Lemma hmac_key_block (k1 k2 msg : list byte) :
  Crypto.key_block k1 = Crypto.key_block k2 -> Crypto.hmac k1 msg = Crypto.hmac k2 msg.
Proof. intros H. unfold Crypto.hmac. rewrite H. reflexivity. Qed.

Lemma F_ext (f g : list byte -> list byte) (salt : list byte) (c i : Z) :
  (forall m, f m = g m) -> Crypto.F f salt c i = Crypto.F g salt c i.
Proof.
  intros H. unfold Crypto.F. rewrite (H (salt ++ Crypto.int32_be i)). f_equal.
  generalize (g (salt ++ Crypto.int32_be i), g (salt ++ Crypto.int32_be i)).
  induction (Z.to_N (c - 1)) as [|n IH] using N.peano_ind; intros ut; [reflexivity|].
  rewrite !N.iter_succ, IH. unfold Crypto.F_step. rewrite H. reflexivity.
Qed.

Lemma pbkdf2_ext (f g : list byte -> list byte) (salt : list byte) (c : Z) (dkLen : nat) :
  (forall m, f m = g m) -> Crypto.pbkdf2 f salt c dkLen = Crypto.pbkdf2 g salt c dkLen.
Proof.
  intros H. unfold Crypto.pbkdf2. f_equal.
  apply flat_map_ext. intros i. apply F_ext, H.
Qed.

Lemma digest_of_key_block (p q salt : JS.jsstring) (c : Z) :
  Crypto.key_block (JS.encode p) = Crypto.key_block (JS.encode q) ->
  digest_of p salt c = digest_of q salt c.
Proof.
  intros H. unfold digest_of, derive. f_equal.
  apply pbkdf2_ext. intros m. apply hmac_key_block, H.
Qed.

(** ** The hexadecimal rendering is injective *)

Lemma hex_byte_digits (b : byte) :
  hex_byte b = [JS.digit_char (Octet.to_Z b / 16); JS.digit_char (Octet.to_Z b mod 16)].
Proof. destruct b; reflexivity. Qed.

Lemma digit_char_inj (d d' : Z) :
  0 <= d < 16 -> 0 <= d' < 16 -> JS.digit_char d = JS.digit_char d' -> d = d'.
Proof.
  intros Hd Hd' H. apply (f_equal JS.code) in H.
  unfold JS.digit_char, JS.code in H. cbn [JS.hi JS.lo] in H.
  destruct (d <? 10) eqn:E; destruct (d' <? 10) eqn:E';
    try apply Z.ltb_lt in E; try apply Z.ltb_ge in E;
    try apply Z.ltb_lt in E'; try apply Z.ltb_ge in E';
    rewrite !to_of_Z in H by lia; lia.
Qed.

Lemma two_cons_inj {A : Type} (a b c d : A) (l l' : list A) :
  a :: b :: l = c :: d :: l' -> a = c /\ b = d /\ l = l'.
Proof. intros H. injection H as -> -> ->. repeat split. Qed.

Lemma hex_byte_inj (a b : byte) : hex_byte a = hex_byte b -> a = b.
Proof.
  rewrite !hex_byte_digits. intros H. apply two_cons_inj in H. destruct H as (H1 & H2 & _).
  pose proof (to_Z_range a) as Ha. pose proof (to_Z_range b) as Hb.
  apply digit_char_inj in H1;
    [|split; [apply Z.div_pos; lia|apply Z.div_lt_upper_bound; lia]
     |split; [apply Z.div_pos; lia|apply Z.div_lt_upper_bound; lia]].
  apply digit_char_inj in H2; [|apply Z.mod_pos_bound; lia|apply Z.mod_pos_bound; lia].
  apply to_Z_inj.
  rewrite (Z.div_mod (Octet.to_Z a) 16), (Z.div_mod (Octet.to_Z b) 16) by lia.
  rewrite H1, H2. reflexivity.
Qed.

Lemma hex_inj (xs ys : list byte) : hex xs = hex ys -> xs = ys.
Proof.
  revert ys. induction xs as [|x xs IH]; intros [|y ys] H.
  - reflexivity.
  - apply (f_equal (@List.length _)) in H. rewrite !hex_length in H. cbn in H. lia.
  - apply (f_equal (@List.length _)) in H. rewrite !hex_length in H. cbn in H. lia.
  - unfold hex, JS.join in H. cbn [map List.concat] in H.
    assert (Hx : hex_byte x = hex_byte y /\ hex xs = hex ys).
    { rewrite (hex_byte_digits x), (hex_byte_digits y) in *.
      cbn [app] in H. apply two_cons_inj in H. destruct H as (H1 & H2 & H3).
      split; [congruence|exact H3]. }
    destruct Hx as [Hb Hr]. f_equal; [apply hex_byte_inj, Hb|apply IH, Hr].
Qed.

Lemma encoded_record_salt_inj (n : JS.number) (s1 s2 d1 d2 : JS.jsstring) :
  List.length s1 = List.length s2 ->
  encoded_record n s1 d1 = encoded_record n s2 d2 -> s1 = s2.
Proof.
  intros Hl H. unfold encoded_record in H.
  apply app_inv_head in H. apply app_inv_head in H. apply app_inv_head in H.
  revert s2 Hl H. induction s1 as [|c s1 IH]; intros [|c' s2] Hl H; cbn in *; try lia.
  - reflexivity.
  - injection H as -> H. f_equal. apply IH; [lia|assumption].
Qed.

Lemma drawn_salt_shape (w : world) :
  hex_string (drawn_salt w) = true /\ List.length (drawn_salt w) = 32%nat.
Proof.
  split; [apply hex_is_hex|].
  unfold drawn_salt. rewrite hex_length, length_map, length_seq. reflexivity.
Qed.

Lemma digest_of_shape (password salt : JS.jsstring) (c : Z) :
  hex_string (digest_of password salt c) = true
  /\ List.length (digest_of password salt c) = 64%nat.
Proof.
  split; [apply hex_is_hex|].
  unfold digest_of. rewrite hex_length, derive_length. reflexivity.
Qed.

Lemma created_record_parts (password : JS.jsstring) (w : world) :
  JS.split dollar
    (encoded_record (JS.Int 100000) (drawn_salt w) (digest_of password (drawn_salt w) 100000))
  = [[]; JS.lit "pbkdf2"; JS.lit "100000"; drawn_salt w;
     digest_of password (drawn_salt w) 100000].
Proof.
  rewrite split_record; [reflexivity|lia|apply drawn_salt_free|apply digest_of_free].
Qed.

(** ** The claims *)

(** C1, as stated, fails: the record made for the password [Test123!@#]
    starts with the delimiter, so splitting it on [$] yields five parts, the
    first of them empty, and not four. *)
Lemma C1_record_has_five_parts_not_four :
  exists r,
    result (createPasswordHash (JS.lit "Test123!@#")) world0 = Return r
    /\ List.length (JS.split dollar r) = 5%nat
    /\ nth_error (JS.split dollar r) 0 = Some []
    /\ List.length (JS.split dollar r) <> 4%nat.
Proof.
  eexists. unfold result. rewrite createPasswordHash_run. cbn [fst].
  split; [reflexivity|]. rewrite created_record_parts. cbn [List.length nth_error].
  repeat split. discriminate.
Qed.

(** C1, amended: for every password and every state of the random source,
    [createPasswordHash] returns a record that splits on [$] into exactly
    five parts, in this order: an empty part, the tag [pbkdf2], the count
    [100000], a salt of 32 lowercase hexadecimal digits and a digest of 64
    lowercase hexadecimal digits. *)
Theorem C1_record_parses_after_leading_empty_part (password : JS.jsstring) (w : world) :
  exists salt digest r,
    result (createPasswordHash password) w = Return r
    /\ JS.split dollar r = [[]; JS.lit "pbkdf2"; JS.lit "100000"; salt; digest]
    /\ hex_string salt = true /\ List.length salt = 32%nat
    /\ hex_string digest = true /\ List.length digest = 64%nat.
Proof.
  exists (drawn_salt w), (digest_of password (drawn_salt w) 100000).
  eexists. unfold result. rewrite createPasswordHash_run. cbn [fst].
  split; [reflexivity|]. split; [apply created_record_parts|].
  destruct (drawn_salt_shape w) as [H1 H2].
  destruct (digest_of_shape password (drawn_salt w) 100000) as [H3 H4].
  split; [exact H1|]. split; [exact H2|]. split; [exact H3|exact H4].
Qed.

(** C2: for every password and whatever salt is drawn, [createPasswordHash]
    returns a record against which [verifyPassword] returns [true] for the
    same password, in whatever state it is called; so does the composition
    [verifyPassword(P, await createPasswordHash(P))]. *)
Theorem C2_round_trip (password : JS.jsstring) (w : world) :
  exists r,
    result (createPasswordHash password) w = Return r
    /\ (forall w', result (verifyPassword password r) w' = Return true)
    /\ result (bind (createPasswordHash password) (verifyPassword password)) w = Return true.
Proof.
  eexists. unfold result, bind. rewrite createPasswordHash_run. cbn [fst].
  split; [reflexivity|]. split.
  - intros w'. rewrite verify_created, str_eqb_refl. reflexivity.
  - rewrite verify_created, str_eqb_refl. reflexivity.
Qed.



(** [parseInt] reads the longest prefix of digits after blanks and a sign,
    and a [0x] prefix as hexadecimal. *)
Example parseInt_reads_a_prefix :
  JS.parseInt (JS.lit "2abc") = JS.Int 2
  /\ JS.parseInt (JS.lit " -0x1F") = JS.Int (-31)
  /\ JS.parseInt (JS.lit "many") = JS.NaN.
Proof. repeat split. Qed.

(** An unpaired surrogate is encoded as U+FFFD, a pair as one code point of
    four octets. *)
Example encode_surrogates :
  JS.encode [JS.Char16 xd8 x3d; JS.Char16 xde x00; JS.Char16 xdc x00]
  = [xf0; x9f; x98; x80; xef; xbf; xbd].
Proof. reflexivity. Qed.

(** A record whose iterations part is no number reaches [deriveBits], which
    throws; the [catch] clause answers [false]. *)
Example verify_iterations_not_a_number :
  result (verifyPassword (JS.lit "Test123!@#") (JS.lit "$pbkdf2$many$00ff$00ff")) world0
  = Return false.
Proof. reflexivity. Qed.

(** HMAC fills a short key up with zero octets, so two passwords with one
    key block are not told apart: each verifies against the record made for
    the other. *)
Lemma same_key_block_verifies (p q : JS.jsstring) (w w' : world) :
  Crypto.key_block (JS.encode q) = Crypto.key_block (JS.encode p) ->
  exists r,
    result (createPasswordHash p) w = Return r
    /\ result (verifyPassword q r) w' = Return true.
Proof.
  intros H. eexists. unfold result. rewrite createPasswordHash_run. cbn [fst].
  split; [reflexivity|].
  rewrite verify_created. cbn [fst].
  rewrite (digest_of_key_block q p (drawn_salt w) 100000 H), str_eqb_refl. reflexivity.
Qed.

(** C4, as stated, fails: the passwords [a] and [a] followed by U+0000 are
    distinct, yet the second verifies against the record made for the
    first. *)
Lemma C4_trailing_nul_verifies :
  JS.lit "a" <> JS.lit "a" ++ [nul]
  /\ exists r,
       result (createPasswordHash (JS.lit "a")) world0 = Return r
       /\ result (verifyPassword (JS.lit "a" ++ [nul]) r) world0 = Return true.
Proof.
  split; [discriminate|].
  apply same_key_block_verifies. reflexivity.
Qed.

(** C4, amended: verifying [p2] against the record made for [p1] returns
    whether the digest [hashPassword] derives from [p2] equals the one it
    derives from [p1], both under the salt of the record and 100000
    iterations; so it returns [false] whenever these two digests differ. *)
Theorem C4_verify_compares_derived_digests (p1 p2 : JS.jsstring) (w w' : world) :
  exists salt r d1 d2,
    result (generateSalt 16) w = Return salt
    /\ result (createPasswordHash p1) w = Return r
    /\ result (hashPassword p1 salt (JS.Int 100000)) w' = Return d1
    /\ result (hashPassword p2 salt (JS.Int 100000)) w' = Return d2
    /\ result (verifyPassword p2 r) w' = Return (JS.str_eqb d2 d1).
Proof.
  exists (drawn_salt w).
  exists (encoded_record (JS.Int 100000) (drawn_salt w) (digest_of p1 (drawn_salt w) 100000)).
  exists (digest_of p1 (drawn_salt w) 100000), (digest_of p2 (drawn_salt w) 100000).
  unfold result.
  rewrite generateSalt_run, createPasswordHash_run.
  rewrite !hashPassword_run by reflexivity. rewrite verify_created. cbn [fst].
  split; [exact eq_refl|]. split; [exact eq_refl|]. split; [exact eq_refl|].
  split; exact eq_refl.
Qed.

(** C5, as stated, fails in its last part: the password made of the single
    code unit U+0000 is not empty, yet it verifies against the record made
    for the empty password. *)
Lemma C5_nul_verifies_against_empty :
  [nul] <> []
  /\ exists r,
       result (createPasswordHash []) world0 = Return r
       /\ result (verifyPassword [nul] r) world0 = Return true.
Proof.
  split; [discriminate|].
  apply same_key_block_verifies. reflexivity.
Qed.

(** C5, amended: [createPasswordHash] of the empty password returns a
    record; the empty password verifies against it; and any password [q]
    verifies against it exactly when [hashPassword] derives from [q] the
    digest it derives from the empty password, under the salt of the record
    and 100000 iterations, so [q] is refused whenever the two digests
    differ. *)
Theorem C5_empty_password (w : world) :
  exists salt r d0,
    result (generateSalt 16) w = Return salt
    /\ result (createPasswordHash []) w = Return r
    /\ (forall w', result (verifyPassword [] r) w' = Return true)
    /\ (forall w', result (hashPassword [] salt (JS.Int 100000)) w' = Return d0)
    /\ (forall q w', exists dq,
           result (hashPassword q salt (JS.Int 100000)) w' = Return dq
           /\ result (verifyPassword q r) w' = Return (JS.str_eqb dq d0)).
Proof.
  exists (drawn_salt w).
  exists (encoded_record (JS.Int 100000) (drawn_salt w) (digest_of [] (drawn_salt w) 100000)).
  exists (digest_of [] (drawn_salt w) 100000). unfold result.
  rewrite generateSalt_run, createPasswordHash_run. cbn [fst].
  split; [exact eq_refl|]. split; [exact eq_refl|]. split; [|split].
  - intros w'. rewrite verify_created, str_eqb_refl. exact eq_refl.
  - intros w'. rewrite hashPassword_run by reflexivity. exact eq_refl.
  - intros q w'. exists (digest_of q (drawn_salt w) 100000).
    rewrite hashPassword_run by reflexivity.
    rewrite verify_created. split; exact eq_refl.
Qed.

(** C6: when two calls of [createPasswordHash] on one password draw
    different octets from the random source, they return two different
    records, and the password verifies against both. *)
Theorem C6_fresh_salts_give_distinct_records (password : JS.jsstring) (w1 w2 : world) :
  map (tape w1) (seq (cursor w1) 16) <> map (tape w2) (seq (cursor w2) 16) ->
  exists r1 r2,
    result (createPasswordHash password) w1 = Return r1
    /\ result (createPasswordHash password) w2 = Return r2
    /\ r1 <> r2
    /\ (forall w, result (verifyPassword password r1) w = Return true
                  /\ result (verifyPassword password r2) w = Return true).
Proof.
  intros Hdraw. eexists. eexists. unfold result.
  rewrite !createPasswordHash_run. cbn [fst].
  split; [reflexivity|]. split; [reflexivity|]. split.
  - intros Heq. apply Hdraw.
    apply encoded_record_salt_inj in Heq.
    + apply hex_inj, Heq.
    + rewrite (proj2 (drawn_salt_shape w1)), (proj2 (drawn_salt_shape w2)). reflexivity.
  - intros w. rewrite !verify_created, !str_eqb_refl. cbn [fst]. split; reflexivity.
Qed.

(** Two calls in a row on a random source that yields 0, 1, 2, ..: the
    second call starts sixteen octets further. *)
Lemma C6_two_calls_in_a_row :
  exists r1 r2,
    result (createPasswordHash (JS.lit "Test123!@#")) world0 = Return r1
    /\ result (createPasswordHash (JS.lit "Test123!@#")) (advance 16 world0) = Return r2
    /\ r1 <> r2
    /\ (forall w, result (verifyPassword (JS.lit "Test123!@#") r1) w = Return true
                  /\ result (verifyPassword (JS.lit "Test123!@#") r2) w = Return true).
Proof.
  apply (C6_fresh_salts_give_distinct_records (JS.lit "Test123!@#") world0 (advance 16 world0)).
  vm_compute. discriminate.
Defined.

(** C7: the outcome of [hashPassword] is a function of the password, the
    salt and the iteration count alone: two calls with the same three
    arguments, in whatever states, end alike, and a call leaves the state as
    it found it. *)
Theorem C7_hashPassword_is_deterministic
    (password salt : JS.jsstring) (iterations : JS.number) (w1 w2 : world) :
  result (hashPassword password salt iterations) w1
  = result (hashPassword password salt iterations) w2
  /\ after (hashPassword password salt iterations) w1 = w1.
Proof.
  unfold result, after, hashPassword, bind, Crypto.importKey, Crypto.deriveBits, ret, throw.
  destruct iterations as [|c]; [split; reflexivity|].
  destruct ((c <? 0) || (4294967295 <? c)); [split; reflexivity|].
  destruct ((256 <=? 0) || negb (256 mod 8 =? 0)); [split; reflexivity|].
  destruct (c =? 0); split; reflexivity.
Qed.






(** C10: [constantTimeCompare] returns [true] exactly when its two strings
    are equal, and [false] when their lengths differ; hence for a record
    with five parts and the tag [pbkdf2], [verifyPassword] returns [true]
    exactly when the digest [hashPassword] derives anew equals the stored
    one. *)
Theorem C10_compare_is_string_equality :
  (forall a b, constantTimeCompare a b = true <-> a = b)
  /\ (forall a b, List.length a <> List.length b -> constantTimeCompare a b = false)
  /\ (forall password r e i salt stored computed w,
        JS.split dollar r = [e; JS.lit "pbkdf2"; i; salt; stored] ->
        result (hashPassword password salt (JS.parseInt i)) w = Return computed ->
        (result (verifyPassword password r) w = Return true <-> computed = stored)).
Proof.
  split; [exact constantTimeCompare_true_iff|]. split.
  - intros a b Hl. unfold constantTimeCompare.
    destruct (List.length a =? List.length b)%nat eqn:E; [|reflexivity].
    apply Nat.eqb_eq in E. contradiction.
  - intros password r e i salt stored computed w Hs Hh. unfold result in *.
    rewrite (verifyPassword_parts password r e i salt stored w Hs).
    destruct (hashPassword password salt (JS.parseInt i) w) as [[h|err] w1];
      cbn [fst] in *; [|discriminate Hh].
    injection Hh as ->.
    rewrite <- constantTimeCompare_true_iff. split.
    + intros H. injection H as H. exact H.
    + intros ->. reflexivity.
Qed.

(** The stored digest of this record is the one derived anew. *)
Lemma C10_stored_digest_matches :
  result
    (verifyPassword (JS.lit "password")
       (JS.lit "$pbkdf2$2$salt$ae4d0c95af6b46d32d0adff928f06dd02a303f8ef3c251dfd6e2d85a95474c43"))
    world0
  = Return true.
Proof.
  apply (proj2 (proj2 (proj2 C10_compare_is_string_equality)
                 (JS.lit "password")
                 (JS.lit "$pbkdf2$2$salt$ae4d0c95af6b46d32d0adff928f06dd02a303f8ef3c251dfd6e2d85a95474c43")
                 [] (JS.lit "2") (JS.lit "salt")
                 (JS.lit "ae4d0c95af6b46d32d0adff928f06dd02a303f8ef3c251dfd6e2d85a95474c43")
                 (JS.lit "ae4d0c95af6b46d32d0adff928f06dd02a303f8ef3c251dfd6e2d85a95474c43")
                 world0 eq_refl ltac:(vm_compute; reflexivity))).
  reflexivity.
Defined.

(** ** Regular expression tests *)

Lemma search_one (p : JS.char16 -> bool) (s : JS.jsstring) :
  Regex.search (Regex.one p Regex.accept) s = existsb p s.
Proof.
  induction s as [|c s IH]; [reflexivity|].
  cbn [Regex.search existsb]. rewrite IH. unfold Regex.one, Regex.accept.
  rewrite andb_true_r. reflexivity.
Qed.

(** ** [checkPasswordStrength] *)

(** The result, read off the six tests. *)
Lemma checkPasswordStrength_tests (s : JS.jsstring) :
  let raw := Z.b2z (8 <=? len s) + Z.b2z (12 <=? len s) + classes s in
  checkPasswordStrength s
  = Strength (Z.min raw 4)
      ((if 8 <=? len s then [] else [need_length])
       ++ (if has_lower s then [] else [need_lower])
       ++ (if has_upper s then [] else [need_upper])
       ++ (if has_digit s then [] else [need_digit])
       ++ (if has_special s then [] else [need_special]))
      ((4 <=? raw) && (8 <=? len s)).
Proof.
  unfold checkPasswordStrength, classes, has_lower, has_upper, has_digit, has_special, len.
  rewrite !search_one.
  destruct (8 <=? Z.of_nat (List.length s)); destruct (12 <=? Z.of_nat (List.length s));
    destruct (existsb Regex.lower s); destruct (existsb Regex.upper s);
    destruct (existsb Regex.digit s); destruct (existsb not_alnum s); reflexivity.
Qed.

Lemma b2z_range (b : bool) : 0 <= Z.b2z b <= 1.
Proof. destruct b; cbn; lia. Qed.

Lemma b2z_le (b b' : bool) : (b = true -> b' = true) -> Z.b2z b <= Z.b2z b'.
Proof. destruct b, b'; cbn; intros H; try lia; specialize (H eq_refl); discriminate H. Qed.

Lemma classes_range (s : JS.jsstring) : 0 <= classes s <= 4.
Proof.
  unfold classes.
  pose proof (b2z_range (has_lower s)). pose proof (b2z_range (has_upper s)).
  pose proof (b2z_range (has_digit s)). pose proof (b2z_range (has_special s)). lia.
Qed.

(** Every code unit is in exactly one of the four classes. *)
Lemma one_class (c : JS.char16) :
  Z.b2z (Regex.lower c) + Z.b2z (Regex.upper c) + Z.b2z (Regex.digit c)
  + Z.b2z (not_alnum c) = 1.
Proof.
  unfold not_alnum, Regex.lower, Regex.upper, Regex.digit, Regex.range.
  destruct (97 <=? JS.code c) eqn:E1; destruct (JS.code c <=? 122) eqn:E2;
    destruct (65 <=? JS.code c) eqn:E3; destruct (JS.code c <=? 90) eqn:E4;
    destruct (48 <=? JS.code c) eqn:E5; destruct (JS.code c <=? 57) eqn:E6;
    cbn; try reflexivity; exfalso;
    repeat match goal with
           | H : (_ <=? _) = true |- _ => apply Z.leb_le in H
           | H : (_ <=? _) = false |- _ => apply Z.leb_gt in H
           end; lia.
Qed.

Lemma classes_nonempty (s : JS.jsstring) : s <> [] -> 1 <= classes s.
Proof.
  destruct s as [|c s]; [congruence|]. intros _.
  unfold classes, has_lower, has_upper, has_digit, has_special. cbn [existsb].
  pose proof (one_class c).
  pose proof (b2z_range (existsb Regex.lower s)). pose proof (b2z_range (existsb Regex.upper s)).
  pose proof (b2z_range (existsb Regex.digit s)). pose proof (b2z_range (existsb not_alnum s)).
  destruct (Regex.lower c); destruct (Regex.upper c); destruct (Regex.digit c);
    destruct (not_alnum c); cbn in *; try lia;
    destruct (existsb Regex.lower s); destruct (existsb Regex.upper s);
    destruct (existsb Regex.digit s); destruct (existsb not_alnum s); cbn in *; lia.
Qed.

Lemma b2z_or (b b' : bool) : Z.b2z b <= Z.b2z (b || b').
Proof. destruct b, b'; cbn; lia. Qed.

Lemma classes_app (s t : JS.jsstring) : classes s <= classes (s ++ t).
Proof.
  unfold classes, has_lower, has_upper, has_digit, has_special. rewrite !existsb_app.
  pose proof (b2z_or (existsb Regex.lower s) (existsb Regex.lower t)).
  pose proof (b2z_or (existsb Regex.upper s) (existsb Regex.upper t)).
  pose proof (b2z_or (existsb Regex.digit s) (existsb Regex.digit t)).
  pose proof (b2z_or (existsb not_alnum s) (existsb not_alnum t)).
  lia.
Qed.

Lemma classes_zero (s : JS.jsstring) : classes s = 0 <-> s = [].
Proof.
  split.
  - intros H. destruct s as [|c s]; [reflexivity|].
    pose proof (classes_nonempty (c :: s) ltac:(discriminate)). lia.
  - intros ->. reflexivity.
Qed.

Lemma len_zero (s : JS.jsstring) : len s = 0 <-> s = [].
Proof.
  unfold len. destruct s; cbn [List.length]; split; intros H; try reflexivity; try discriminate H; lia.
Qed.

(** The score lies between 0 and 4 and is 0 for the empty password only;
    [isStrong] holds exactly when the score is 4 and the password has eight
    code units or more. *)
Theorem strength_score_and_verdict (s : JS.jsstring) :
  0 <= score (checkPasswordStrength s) <= 4
  /\ (score (checkPasswordStrength s) = 0 <-> s = [])
  /\ isStrong (checkPasswordStrength s)
     = (score (checkPasswordStrength s) =? 4) && (8 <=? len s).
Proof.
  pose proof (checkPasswordStrength_tests s) as E. cbn zeta in E. rewrite E.
  cbn [score isStrong].
  pose proof (classes_range s) as Hc.
  pose proof (b2z_range (8 <=? len s)) as H8. pose proof (b2z_range (12 <=? len s)) as H12.
  split; [lia|]. split.
  - rewrite <- classes_zero. split.
    + intros H. lia.
    + intros H. apply classes_zero in H. subst s. reflexivity.
  - f_equal.
    destruct (4 <=? Z.b2z (8 <=? len s) + Z.b2z (12 <=? len s) + classes s) eqn:E4.
    + apply Z.leb_le in E4. symmetry. apply Z.eqb_eq. lia.
    + apply Z.leb_gt in E4. symmetry. apply Z.eqb_neq. lia.
Qed.

(** No remark is made exactly when the password has eight code units or
    more and a character of each of the four classes; such a password is
    strong. *)
Theorem strength_no_feedback (s : JS.jsstring) :
  (feedback (checkPasswordStrength s) = []
   <-> 8 <= len s /\ has_lower s = true /\ has_upper s = true
       /\ has_digit s = true /\ has_special s = true)
  /\ (feedback (checkPasswordStrength s) = [] ->
      isStrong (checkPasswordStrength s) = true /\ score (checkPasswordStrength s) = 4).
Proof.
  pose proof (checkPasswordStrength_tests s) as E. cbn zeta in E. rewrite E.
  cbn [score isStrong feedback]. unfold classes.
  destruct (8 <=? len s) eqn:E8; destruct (has_lower s); destruct (has_upper s);
    destruct (has_digit s); destruct (has_special s); cbn [app];
    try apply Z.leb_le in E8; try apply Z.leb_gt in E8;
    (split; [split; [intros H; try discriminate H; repeat split; lia
                    |intros (H1 & H2 & H3 & H4 & H5);
                     try discriminate; try reflexivity; lia]
            |intros H; try discriminate H]).
  pose proof (b2z_range (12 <=? len s)). cbn [Z.b2z]. split.
  - rewrite andb_true_r. apply Z.leb_le. lia.
  - lia.
Qed.

(** A password is strong exactly when it has eight code units or more and
    either three of the four classes, or twelve code units and two classes. *)
Theorem strength_strong_iff (s : JS.jsstring) :
  isStrong (checkPasswordStrength s) = true
  <-> 8 <= len s /\ (3 <= classes s \/ (12 <= len s /\ 2 <= classes s)).
Proof.
  pose proof (checkPasswordStrength_tests s) as E. cbn zeta in E. rewrite E.
  cbn [isStrong]. rewrite andb_true_iff, !Z.leb_le.
  pose proof (classes_range s) as Hc.
  destruct (8 <=? len s) eqn:E8; destruct (12 <=? len s) eqn:E12; cbn [Z.b2z];
    try apply Z.leb_le in E8; try apply Z.leb_gt in E8;
    try apply Z.leb_le in E12; try apply Z.leb_gt in E12; lia.
Qed.

(** Typing more never hurts: with a suffix added the score is not lower, a
    strong password stays strong and no new remark appears. *)
Theorem strength_grows_with_suffix (s t : JS.jsstring) :
  score (checkPasswordStrength s) <= score (checkPasswordStrength (s ++ t))
  /\ (isStrong (checkPasswordStrength s) = true ->
      isStrong (checkPasswordStrength (s ++ t)) = true)
  /\ incl (feedback (checkPasswordStrength (s ++ t))) (feedback (checkPasswordStrength s)).
Proof.
  assert (Hlen : len s <= len (s ++ t)) by (unfold len; rewrite length_app; lia).
  assert (H8 : Z.b2z (8 <=? len s) <= Z.b2z (8 <=? len (s ++ t))).
  { apply b2z_le. rewrite !Z.leb_le. lia. }
  assert (H12 : Z.b2z (12 <=? len s) <= Z.b2z (12 <=? len (s ++ t))).
  { apply b2z_le. rewrite !Z.leb_le. lia. }
  pose proof (classes_app s t) as Hc.
  split; [|split].
  - pose proof (checkPasswordStrength_tests s) as E. cbn zeta in E. rewrite E.
    pose proof (checkPasswordStrength_tests (s ++ t)) as E'. cbn zeta in E'. rewrite E'.
    cbn [score]. lia.
  - pose proof (checkPasswordStrength_tests s) as E. cbn zeta in E. rewrite E.
    pose proof (checkPasswordStrength_tests (s ++ t)) as E'. cbn zeta in E'. rewrite E'.
    cbn [isStrong]. rewrite !andb_true_iff, !Z.leb_le.
    pose proof (b2z_range (8 <=? len s)). pose proof (b2z_range (12 <=? len s)).
    lia.
  - pose proof (checkPasswordStrength_tests s) as E. cbn zeta in E. rewrite E.
    pose proof (checkPasswordStrength_tests (s ++ t)) as E'. cbn zeta in E'. rewrite E'.
    cbn [feedback]. unfold has_lower, has_upper, has_digit, has_special.
    rewrite !existsb_app.
    assert (H8' : (8 <=? len s) = true -> (8 <=? len (s ++ t)) = true)
      by (rewrite !Z.leb_le; lia).
    destruct (8 <=? len s); [rewrite (H8' eq_refl)|];
      destruct (existsb Regex.lower s); destruct (existsb Regex.upper s);
      destruct (existsb Regex.digit s); destruct (existsb not_alnum s); cbn [orb app];
      intros m Hm; repeat (apply in_app_or in Hm; destruct Hm as [Hm|Hm]);
      repeat match goal with
             | H : In _ (if ?b then _ else _) |- _ => destruct b
             | H : In _ [] |- _ => destruct H
             | H : In _ [_] |- _ => destruct H as [<-|[]]
             end; cbn; tauto.
Qed.

(** ** [generateSalt] and [generateRandomPassword] *)

Lemma getRandomValues_run (n : nat) (w : world) :
  Z.of_nat n <= 65536 ->
  Crypto.getRandomValues n w = (Return (drawn n w), advance n w).
Proof.
  intros H. unfold Crypto.getRandomValues.
  replace (65536 <? Z.of_nat n) with false by (symmetry; apply Z.ltb_ge; lia).
  reflexivity.
Qed.


Lemma drawn_length (n : nat) (w : world) : List.length (drawn n w) = n.
Proof. unfold drawn. rewrite length_map, length_seq. reflexivity. Qed.

(** For at most 65536 octets [generateSalt] returns the hexadecimal
    rendering of the octets it draws: twice as many lowercase hexadecimal
    digits; it moves the random source on by that many octets and writes
    nothing to the console. *)
Theorem generateSalt_shape (n : nat) (w : world) :
  Z.of_nat n <= 65536 ->
  exists salt,
    result (generateSalt n) w = Return salt
    /\ salt = hex (drawn n w)
    /\ List.length salt = (2 * n)%nat
    /\ hex_string salt = true
    /\ after (generateSalt n) w = advance n w.
Proof.
  intros H. exists (hex (drawn n w)).
  unfold result, after, generateSalt, bind. rewrite getRandomValues_run by assumption.
  cbn [fst snd ret].
  split; [reflexivity|]. split; [reflexivity|].
  split; [rewrite hex_length, drawn_length; reflexivity|].
  split; [apply hex_is_hex|reflexivity].
Qed.

(** Sixteen octets from a source that yields 0, 1, 2, .. *)
Lemma generateSalt_shape_sixteen :
  exists salt,
    result (generateSalt 16) world0 = Return salt
    /\ salt = hex (drawn 16 world0)
    /\ List.length salt = (2 * 16)%nat
    /\ hex_string salt = true
    /\ after (generateSalt 16) world0 = advance 16 world0.
Proof. apply (generateSalt_shape 16 world0). vm_compute. discriminate. Defined.

(** Two salts of one length are equal exactly when the same octets were
    drawn for them: a salt is repeated only if the random source repeats. *)
Theorem generateSalt_repeats_iff (n : nat) (w1 w2 : world) :
  Z.of_nat n <= 65536 ->
  (result (generateSalt n) w1 = result (generateSalt n) w2 <-> drawn n w1 = drawn n w2).
Proof.
  intros H. unfold result, generateSalt, bind.
  rewrite !getRandomValues_run by assumption. cbn [fst ret].
  fold (hex (drawn n w1)). fold (hex (drawn n w2)). split.
  - intros E. injection E as E. apply hex_inj, E.
  - intros ->. reflexivity.
Qed.

(** Two draws of sixteen octets, one after the other. *)
Lemma generateSalt_repeats_iff_sixteen :
  result (generateSalt 16) world0 = result (generateSalt 16) (advance 16 world0)
  <-> drawn 16 world0 = drawn 16 (advance 16 world0).
Proof. apply (generateSalt_repeats_iff 16 world0 (advance 16 world0)). vm_compute. discriminate. Defined.

Lemma fold_append {A : Type} (g : nat -> list A) (l : list nat) (acc : list A) :
  fold_left (fun password i => password ++ g i) l acc = acc ++ List.concat (map g l).
Proof.
  revert acc. induction l as [|i l IH]; intros acc; cbn [fold_left map List.concat].
  - rewrite app_nil_r. reflexivity.
  - rewrite IH, app_assoc. reflexivity.
Qed.

Lemma str_at_charset (b : byte) :
  str_at charset (Z.to_nat (Octet.to_Z b mod Z.of_nat (List.length charset))) = [pick b].
Proof.
  unfold str_at, pick. change (Z.of_nat (List.length charset)) with 70.
  pose proof (to_Z_range b). pose proof (Z.mod_pos_bound (Octet.to_Z b) 70 ltac:(lia)) as Hm.
  destruct (nth_error charset (Z.to_nat (Octet.to_Z b mod 70))) as [c|] eqn:E.
  - rewrite (nth_error_nth _ _ _ E). reflexivity.
  - apply nth_error_None in E. change (List.length charset) with 70%nat in E. lia.
Qed.

Lemma pick_in_charset (b : byte) : In (pick b) charset.
Proof.
  unfold pick. apply nth_In. change (List.length charset) with 70%nat.
  pose proof (Z.mod_pos_bound (Octet.to_Z b) 70 ltac:(lia)). lia.
Qed.

Lemma concat_singletons {A B : Type} (f : A -> B) (l : list A) :
  List.concat (map (fun a => [f a]) l) = map f l.
Proof. induction l as [|a l IH]; [reflexivity|]. cbn. rewrite IH. reflexivity. Qed.

Lemma map_over_indices {A B : Type} (g : A -> B) (d : A) (l : list A) :
  map (fun i => g (nth i l d)) (seq 0 (List.length l)) = map g l.
Proof.
  induction l as [|a l IH]; [reflexivity|].
  cbn [List.length seq map nth]. f_equal.
  rewrite <- seq_shift, map_map. exact IH.
Qed.

Lemma generateRandomPassword_run (n : nat) (w : world) :
  Z.of_nat n <= 65536 ->
  generateRandomPassword n w = (Return (map pick (drawn n w)), advance n w).
Proof.
  intros H. unfold generateRandomPassword, bind. rewrite getRandomValues_run by assumption.
  unfold ret. f_equal. f_equal. rewrite fold_append. cbn [app].
  pose proof (map_over_indices
                (fun b => str_at charset
                            (Z.to_nat (Octet.to_Z b mod Z.of_nat (List.length charset))))
                x00 (drawn n w)) as M.
  rewrite drawn_length in M. cbn beta in M.
  transitivity (List.concat (map (fun b => [pick b]) (drawn n w)));
    [|apply concat_singletons].
  apply (f_equal (@List.concat JS.char16)).
  etransitivity; [exact M|]. apply map_ext, str_at_charset.
Qed.

(** For a length of at most 65536, [generateRandomPassword] returns a
    password of exactly that length whose every character is one of the 70
    of the charset, the one at index [octet mod 70] for each octet drawn;
    it moves the random source on by as many octets as the password is
    long. *)
Theorem generateRandomPassword_shape (n : nat) (w : world) :
  Z.of_nat n <= 65536 ->
  exists password,
    result (generateRandomPassword n) w = Return password
    /\ password = map pick (drawn n w)
    /\ List.length password = n
    /\ Forall (fun c => In c charset) password
    /\ after (generateRandomPassword n) w = advance n w.
Proof.
  intros H. exists (map pick (drawn n w)). unfold result, after.
  rewrite generateRandomPassword_run by assumption. cbn [fst snd].
  split; [reflexivity|]. split; [reflexivity|].
  split; [rewrite length_map; apply drawn_length|].
  split; [|reflexivity].
  apply Forall_forall. intros c Hc. apply in_map_iff in Hc.
  destruct Hc as (b & <- & _). apply pick_in_charset.
Qed.

(** The default length, twelve. *)
Lemma generateRandomPassword_shape_twelve :
  exists password,
    result (generateRandomPassword 12) world0 = Return password
    /\ password = map pick (drawn 12 world0)
    /\ List.length password = 12%nat
    /\ Forall (fun c => In c charset) password
    /\ after (generateRandomPassword 12) world0 = advance 12 world0.
Proof. apply (generateRandomPassword_shape 12 world0). vm_compute. discriminate. Defined.



Lemma octets_for_all :
  forallb (fun j => Nat.eqb (octets_for j) (if (j <? 46)%nat then 4 else 3)) (seq 0 70) = true.
Proof. vm_compute. reflexivity. Qed.

(** The characters are not equally likely: since 256 is no multiple of 70,
    each of the first 46 characters of the charset ([A] to [Z], [a] to [t])
    is taken for four of the 256 octets, each of the other 24 for three. *)
Theorem generateRandomPassword_bias (j : nat) :
  (j < 70)%nat ->
  octets_for j = if (j <? 46)%nat then 4%nat else 3%nat.
Proof.
  intros H. pose proof octets_for_all as A. rewrite forallb_forall in A.
  apply Nat.eqb_eq, A, in_seq. lia.
Qed.

(** [A], the first character, and [*], the last. *)
Lemma generateRandomPassword_bias_first_and_last :
  octets_for 0 = 4%nat /\ octets_for 69 = 3%nat.
Proof.
  split.
  - apply (generateRandomPassword_bias 0). lia.
  - apply (generateRandomPassword_bias 69). lia.
Defined.

(** ** What the regular expression constructs match *)

Lemma eos_spec (s : JS.jsstring) : Regex.eos s = true <-> s = [].
Proof. destruct s; cbn; split; congruence. Qed.

Lemma one_spec (p : JS.char16 -> bool) (k : Regex.matcher) (s : JS.jsstring) :
  Regex.one p k s = true <-> exists c r, s = c :: r /\ p c = true /\ k r = true.
Proof.
  destruct s as [|c s]; cbn [Regex.one].
  - split; [discriminate|]. intros (c & r & H & _). discriminate H.
  - rewrite andb_true_iff. split.
    + intros [H1 H2]. exists c, s. auto.
    + intros (c' & r & H & H1 & H2). injection H as -> ->. auto.
Qed.

Lemma star_spec (p : JS.char16 -> bool) (k : Regex.matcher) (s : JS.jsstring) :
  Regex.star p k s = true
  <-> exists a r, s = a ++ r /\ forallb p a = true /\ k r = true.
Proof.
  induction s as [|c s IH]; cbn [Regex.star].
  - split.
    + intros H. exists [], []. auto.
    + intros (a & r & E & _ & Hk). symmetry in E. apply app_eq_nil in E.
      destruct E as [_ ->]. exact Hk.
  - rewrite orb_true_iff, andb_true_iff, IH. split.
    + intros [[Hc (a & r & -> & Ha & Hk)]|Hk].
      * exists (c :: a), r. cbn [forallb app]. rewrite Hc, Ha. auto.
      * exists [], (c :: s). auto.
    + intros (a & r & E & Ha & Hk). destruct a as [|c' a].
      * right. cbn [app] in E. subst r. exact Hk.
      * left. cbn [app forallb] in *. injection E as -> ->.
        apply andb_true_iff in Ha. destruct Ha as [Hc Ha].
        split; [exact Hc|]. exists a, r. auto.
Qed.

Lemma plus_spec (p : JS.char16 -> bool) (k : Regex.matcher) (s : JS.jsstring) :
  Regex.plus p k s = true
  <-> exists a r, s = a ++ r /\ a <> [] /\ forallb p a = true /\ k r = true.
Proof.
  unfold Regex.plus. rewrite one_spec. split.
  - intros (c & r & -> & Hc & Hs). apply star_spec in Hs.
    destruct Hs as (a & r' & -> & Ha & Hk).
    exists (c :: a), r'. cbn [forallb app]. rewrite Hc, Ha.
    repeat split; [discriminate|exact Hk].
  - intros (a & r & -> & Hne & Ha & Hk). destruct a as [|c a]; [congruence|].
    cbn [forallb app] in *. apply andb_true_iff in Ha. destruct Ha as [Hc Ha].
    exists c, (a ++ r). repeat split; [exact Hc|].
    apply star_spec. exists a, r. auto.
Qed.

Lemma upto_spec (n : nat) (p : JS.char16 -> bool) (k : Regex.matcher) (s : JS.jsstring) :
  Regex.upto n p k s = true
  <-> exists a r, s = a ++ r /\ (List.length a <= n)%nat /\ forallb p a = true /\ k r = true.
Proof.
  revert s. induction n as [|n IH]; intros s; cbn [Regex.upto].
  - split.
    + intros H. exists [], s. cbn. auto.
    + intros (a & r & -> & Hl & _ & Hk). destruct a; [exact Hk|cbn in Hl; lia].
  - rewrite orb_true_iff, one_spec. split.
    + intros [(c & r & -> & Hc & Hr)|Hk].
      * apply IH in Hr. destruct Hr as (a & r' & -> & Hl & Ha & Hk).
        exists (c :: a), r'. cbn [forallb app List.length]. rewrite Hc, Ha.
        repeat split; [lia|exact Hk].
      * exists [], s. cbn. repeat split; [lia|exact Hk].
    + intros (a & r & -> & Hl & Ha & Hk). destruct a as [|c a].
      * right. exact Hk.
      * left. cbn [forallb app List.length] in *.
        apply andb_true_iff in Ha. destruct Ha as [Hc Ha].
        exists c, (a ++ r). repeat split; [exact Hc|].
        apply IH. exists a, r. repeat split; [lia|exact Ha|exact Hk].
Qed.

Lemma search_here (m : Regex.matcher) (s : JS.jsstring) :
  m s = true -> Regex.search m s = true.
Proof. intros H. destruct s; cbn [Regex.search]; rewrite H; reflexivity. Qed.

(** A look-ahead [(?=.*[p])], tried at every position, finds a character of
    the class wherever it stands: line terminators do not hide it. *)
Lemma search_ahead (p : JS.char16 -> bool) (s : JS.jsstring) :
  Regex.search (ahead p) s = existsb p s.
Proof.
  induction s as [|c s IH]; [reflexivity|].
  cbn [Regex.search existsb]. rewrite IH.
  unfold ahead at 1. cbn [Regex.star Regex.one]. unfold Regex.accept.
  rewrite andb_true_r. fold (ahead p).
  destruct (p c); [rewrite orb_true_r; reflexivity|].
  rewrite orb_false_r. cbn [orb].
  destruct (existsb p s) eqn:E; [apply orb_true_r|].
  rewrite orb_false_r.
  destruct (ahead p s) eqn:A.
  - apply search_here in A. rewrite IH in A. congruence.
  - unfold ahead, Regex.accept in A. rewrite A. apply andb_false_r.
Qed.

(** ** The e-mail pattern *)

Lemma chr_spec (a : ascii) (c : JS.char16) : Regex.chr a c = true <-> c = JS.of_ascii a.
Proof. unfold Regex.chr. apply char_eqb_eq. Qed.

Lemma emailRegex_shape (e : JS.jsstring) : emailRegex e = true <-> email_shape e.
Proof.
  unfold emailRegex, email_shape, email_part. split.
  - intros H. apply plus_spec in H. destruct H as (a & r1 & -> & Ha & Fa & H).
    apply one_spec in H. destruct H as (c1 & r2 & -> & Hc1 & H).
    apply chr_spec in Hc1. subst c1.
    apply plus_spec in H. destruct H as (b & r3 & -> & Hb & Fb & H).
    apply one_spec in H. destruct H as (c2 & r4 & -> & Hc2 & H).
    apply chr_spec in Hc2. subst c2.
    apply plus_spec in H. destruct H as (c & r5 & -> & Hc & Fc & H).
    apply eos_spec in H. subst r5. rewrite app_nil_r.
    exists a, b, c. repeat split; assumption.
  - intros (a & b & c & -> & [Ha Fa] & [Hb Fb] & [Hc Fc]).
    apply plus_spec. exists a, (at_sign :: b ++ full_stop :: c).
    split; [reflexivity|]. split; [exact Ha|]. split; [exact Fa|].
    apply one_spec. exists at_sign, (b ++ full_stop :: c).
    split; [reflexivity|]. split; [apply chr_spec; reflexivity|].
    apply plus_spec. exists b, (full_stop :: c).
    split; [reflexivity|]. split; [exact Hb|]. split; [exact Fb|].
    apply one_spec. exists full_stop, c.
    split; [reflexivity|]. split; [apply chr_spec; reflexivity|].
    apply plus_spec. exists c, []. rewrite app_nil_r.
    split; [reflexivity|]. split; [exact Hc|]. split; [exact Fc|reflexivity].
Qed.

Lemma nonempty_length {A : Type} (l : list A) : l <> [] -> (1 <= List.length l)%nat.
Proof. destruct l; [congruence|cbn; lia]. Qed.

Lemma email_shape_length (e : JS.jsstring) : email_shape e -> 5 <= len e.
Proof.
  intros (a & b & c & -> & [Ha _] & [Hb _] & [Hc _]).
  apply nonempty_length in Ha, Hb, Hc. unfold len.
  rewrite length_app. cbn [List.length]. rewrite length_app. cbn [List.length]. lia.
Qed.

(** [validateEmail] accepts exactly the strings of at most 254 code units
    that read [local@domain.tail], the three parts non-empty and free of
    blanks and of [@]; such a string always has five code units or more, so
    the lower bound the function tests never decides. *)
Theorem validateEmail_shape (e : JS.jsstring) :
  (validateEmail e = true <-> email_shape e /\ len e <= 254)
  /\ (emailRegex e = true -> 5 <= len e).
Proof.
  split.
  - unfold validateEmail. rewrite !andb_true_iff, !Z.leb_le, emailRegex_shape.
    fold (len e). split.
    + intros [[H1 _] H3]. split; assumption.
    + intros [H1 H3]. repeat split; try assumption. apply email_shape_length, H1.
  - intros H. apply email_shape_length, emailRegex_shape, H.
Qed.

Lemma occurrences_app (c : JS.char16) (s t : JS.jsstring) :
  occurrences c (s ++ t) = (occurrences c s + occurrences c t)%nat.
Proof. unfold occurrences. rewrite filter_app, length_app. reflexivity. Qed.

Lemma email_char_no_at (s : JS.jsstring) :
  forallb email_char s = true ->
  occurrences at_sign s = 0%nat /\ existsb Regex.space s = false.
Proof.
  induction s as [|c s IH]; [split; reflexivity|]. cbn [forallb].
  rewrite andb_true_iff. intros [Hc Hs]. destruct (IH Hs) as [I1 I2].
  unfold email_char in Hc. apply negb_true_iff, orb_false_iff in Hc.
  destruct Hc as [H1 H2]. unfold Regex.chr in H2.
  assert (E : JS.char_eqb at_sign c = false).
  { destruct (JS.char_eqb at_sign c) eqn:E; [|reflexivity].
    apply char_eqb_eq in E. subst c. rewrite char_eqb_refl in H2. discriminate H2. }
  unfold occurrences in *. cbn [filter existsb]. rewrite E, H1, I2.
  split; [exact I1|reflexivity].
Qed.

(** An address [validateEmail] accepts has exactly one [@], no blank
    anywhere, and a full stop after the [@] that is neither the first
    character of the domain nor the last of the address. *)
Theorem validateEmail_one_at (e : JS.jsstring) :
  validateEmail e = true ->
  occurrences at_sign e = 1%nat
  /\ existsb Regex.space e = false
  /\ exists a b c,
       e = a ++ at_sign :: b ++ full_stop :: c
       /\ a <> [] /\ b <> [] /\ c <> [] /\ occurrences at_sign a = 0%nat.
Proof.
  unfold validateEmail. rewrite !andb_true_iff. intros [[H _] _].
  apply emailRegex_shape in H.
  destruct H as (a & b & c & -> & [Ha Fa] & [Hb Fb] & [Hc Fc]).
  destruct (email_char_no_at a Fa) as [A1 A2].
  destruct (email_char_no_at b Fb) as [B1 B2].
  destruct (email_char_no_at c Fc) as [C1 C2].
  split; [|split].
  - rewrite occurrences_app.
    change (at_sign :: b ++ full_stop :: c) with ([at_sign] ++ b ++ [full_stop] ++ c).
    rewrite !occurrences_app, A1, B1, C1. reflexivity.
  - rewrite existsb_app. cbn [existsb]. rewrite existsb_app. cbn [existsb].
    rewrite A2, B2, C2. reflexivity.
  - exists a, b, c. repeat split; assumption.
Qed.

(** The shortest address there is. *)
Lemma validateEmail_one_at_short :
  occurrences at_sign (JS.lit "a@b.c") = 1%nat
  /\ existsb Regex.space (JS.lit "a@b.c") = false
  /\ exists a b c,
       JS.lit "a@b.c" = a ++ at_sign :: b ++ full_stop :: c
       /\ a <> [] /\ b <> [] /\ c <> [] /\ occurrences at_sign a = 0%nat.
Proof. apply (validateEmail_one_at (JS.lit "a@b.c")). reflexivity. Defined.

(** The login form complains about an empty value and about a value that is
    no [local@domain.tail]; it accepts every address [validateEmail]
    accepts, and longer ones of that shape as well. *)
Theorem loginEmailValidator_accepts (e : JS.jsstring) :
  (loginEmailValidator e = None <-> email_shape e)
  /\ (validateEmail e = true -> loginEmailValidator e = None)
  /\ (email_shape e -> 254 < len e ->
      loginEmailValidator e = None /\ validateEmail e = false).
Proof.
  assert (A : loginEmailValidator e = None <-> email_shape e).
  { rewrite <- emailRegex_shape. unfold loginEmailValidator.
    destruct e as [|c e]; [split; discriminate|].
    destruct (emailRegex (c :: e)); cbn [negb]; split; congruence. }
  split; [exact A|]. split.
  - unfold validateEmail. rewrite !andb_true_iff. intros [[H _] _].
    apply A, emailRegex_shape, H.
  - intros Hs Hl. split; [apply A, Hs|].
    unfold validateEmail. apply andb_false_iff. right. apply Z.leb_gt. exact Hl.
Qed.

(** ** The telephone pattern *)

Lemma phoneRegex_shape (s : JS.jsstring) : phoneRegex s = true <-> phone_shape s.
Proof.
  unfold phoneRegex, phone_shape, Regex.opt. rewrite orb_true_iff. split.
  - intros [H|H].
    + apply one_spec in H. destruct H as (c & r & -> & Hc & H).
      apply chr_spec in Hc. subst c.
      apply one_spec in H. destruct H as (d & r' & -> & Hd & H).
      apply upto_spec in H. destruct H as (ds & r'' & -> & Hl & Fd & H).
      apply eos_spec in H. subst r''. rewrite app_nil_r.
      exists [plus_sign], d, ds. cbn [app]. auto.
    + apply one_spec in H. destruct H as (d & r' & -> & Hd & H).
      apply upto_spec in H. destruct H as (ds & r'' & -> & Hl & Fd & H).
      apply eos_spec in H. subst r''. rewrite app_nil_r.
      exists [], d, ds. cbn [app]. auto.
  - intros (sign & d & ds & -> & Hsign & Hd & Fd & Hl).
    assert (K : Regex.one (Regex.range 49 57) (Regex.upto 15 Regex.digit Regex.eos) (d :: ds)
                = true).
    { apply one_spec. exists d, ds. split; [reflexivity|]. split; [exact Hd|].
      apply upto_spec. exists ds, []. rewrite app_nil_r. auto. }
    destruct Hsign as [->| ->]; cbn [app].
    + right. exact K.
    + left. apply one_spec. exists plus_sign, (d :: ds).
      split; [reflexivity|]. split; [apply chr_spec; reflexivity|exact K].
Qed.

Lemma dial_app (s t : JS.jsstring) : dial (s ++ t) = dial s ++ dial t.
Proof. apply filter_app. Qed.

(** [validatePhone] accepts a number exactly when, blanks, hyphens and
    parentheses dropped, it is an optional [+], a digit from 1 to 9 and at
    most fifteen more digits; a filler may stand anywhere without changing
    the answer. *)
Theorem validatePhone_shape (phone : JS.jsstring) :
  (validatePhone phone = true <-> phone_shape (dial phone))
  /\ (forall a f b, phone_filler f = true ->
        validatePhone (a ++ f :: b) = validatePhone (a ++ b)).
Proof.
  split; [apply phoneRegex_shape|].
  intros a f b Hf. unfold validatePhone. fold (dial (a ++ f :: b)). fold (dial (a ++ b)).
  rewrite !dial_app. unfold dial at 2. cbn [filter]. rewrite Hf. reflexivity.
Qed.

(** ** [validatePassword] *)

Lemma validatePassword_tests (s : JS.jsstring) :
  validatePassword s
  = Validation
      ((8 <=? len s) && has_lower s && has_upper s && has_digit s && existsb listed_special s)
      ((if 8 <=? len s then [] else [too_short])
       ++ (if has_lower s then [] else [no_lower])
       ++ (if has_upper s then [] else [no_upper])
       ++ (if has_digit s then [] else [no_digit])
       ++ (if existsb listed_special s then [] else [no_special])).
Proof.
  unfold validatePassword, has_lower, has_upper, has_digit, len.
  rewrite !search_ahead. rewrite (Z.ltb_antisym 8 (Z.of_nat (List.length s))).
  destruct (8 <=? Z.of_nat (List.length s)); destruct (existsb Regex.lower s);
    destruct (existsb Regex.upper s); destruct (existsb Regex.digit s);
    destruct (existsb listed_special s); reflexivity.
Qed.

Lemma listed_special_not_alnum (c : JS.char16) :
  listed_special c = true -> not_alnum c = true.
Proof.
  unfold listed_special. rewrite !orb_true_iff, !chr_spec.
  intros [[[[[[-> | ->] | ->] | ->] | ->] | ->] | ->]; reflexivity.
Qed.

Lemma listed_special_has_special (s : JS.jsstring) :
  existsb listed_special s = true -> has_special s = true.
Proof.
  unfold has_special. rewrite !existsb_exists.
  intros (c & Hin & Hc). exists c. split; [exact Hin|apply listed_special_not_alnum, Hc].
Qed.

(** [validatePassword] finds a password valid exactly when it has eight
    code units or more, a lowercase letter, an uppercase letter, a digit and
    one of [@$!%*?&], wherever they stand (a line break in the password
    hides nothing from the look-aheads); it is valid exactly when no error
    is listed. *)
Theorem validatePassword_valid_iff (s : JS.jsstring) :
  (isValid (validatePassword s) = true
   <-> 8 <= len s /\ has_lower s = true /\ has_upper s = true /\ has_digit s = true
       /\ existsb listed_special s = true)
  /\ (isValid (validatePassword s) = true <-> errors (validatePassword s) = []).
Proof.
  rewrite validatePassword_tests. cbn [isValid errors].
  rewrite !andb_true_iff, Z.leb_le. split; [tauto|].
  destruct (8 <=? len s) eqn:E8; destruct (has_lower s); destruct (has_upper s);
    destruct (has_digit s); destruct (existsb listed_special s); cbn [app];
    try apply Z.leb_le in E8; try apply Z.leb_gt in E8;
    split; intros H; try discriminate H; try reflexivity;
    try (repeat split; (lia || reflexivity));
    destruct H as ((((H1 & H2) & H3) & H4) & H5); try discriminate; lia.
Qed.

(** Every password the registration form finds valid, [checkPasswordStrength]
    calls strong, with the score 4 and no remark. *)
Theorem valid_password_is_strong (s : JS.jsstring) :
  isValid (validatePassword s) = true ->
  isStrong (checkPasswordStrength s) = true
  /\ score (checkPasswordStrength s) = 4
  /\ feedback (checkPasswordStrength s) = [].
Proof.
  rewrite validatePassword_tests. cbn [isValid]. rewrite !andb_true_iff.
  intros ((((H8 & Hl) & Hu) & Hd) & Hs). apply listed_special_has_special in Hs.
  pose proof (checkPasswordStrength_tests s) as E. cbn zeta in E. rewrite E.
  cbn [isStrong score feedback]. unfold classes. rewrite H8, Hl, Hu, Hd, Hs.
  pose proof (b2z_range (12 <=? len s)). cbn [Z.b2z app].
  split; [|split; [lia|reflexivity]].
  rewrite andb_true_r. apply Z.leb_le. lia.
Qed.

(** A password with all five properties. *)
Lemma valid_password_is_strong_example :
  isStrong (checkPasswordStrength (JS.lit "Test123!@#")) = true
  /\ score (checkPasswordStrength (JS.lit "Test123!@#")) = 4
  /\ feedback (checkPasswordStrength (JS.lit "Test123!@#")) = [].
Proof. apply (valid_password_is_strong (JS.lit "Test123!@#")). reflexivity. Defined.

(** The converse fails by the special characters only: a password that
    earns no remark from [checkPasswordStrength] gets from
    [validatePassword] no error, or the single error that one of [@$!%*?&]
    is missing. *)
Theorem no_feedback_one_error (s : JS.jsstring) :
  feedback (checkPasswordStrength s) = [] ->
  errors (validatePassword s) = [] \/ errors (validatePassword s) = [no_special].
Proof.
  pose proof (checkPasswordStrength_tests s) as E. cbn zeta in E. rewrite E.
  rewrite validatePassword_tests. cbn [feedback errors].
  destruct (8 <=? len s); destruct (has_lower s); destruct (has_upper s);
    destruct (has_digit s); destruct (has_special s); cbn [app];
    intros H; try discriminate H.
  destruct (existsb listed_special s); [left|right]; reflexivity.
Qed.

(** [#] is a special character for the one function and not for the other. *)
Lemma no_feedback_one_error_hash :
  errors (validatePassword (JS.lit "Abcdef1#")) = []
  \/ errors (validatePassword (JS.lit "Abcdef1#")) = [no_special].
Proof. apply (no_feedback_one_error (JS.lit "Abcdef1#")). reflexivity. Defined.

(** ** More on records and [verifyPassword] *)

Lemma hex_string_ascii (s : JS.jsstring) : hex_string s = true -> forallb is_ascii s = true.
Proof.
  unfold hex_string. rewrite !forallb_forall. intros H c Hc. specialize (H c Hc).
  unfold is_lower_hex in H. unfold is_ascii. apply Z.ltb_lt.
  apply orb_true_iff in H. rewrite !andb_true_iff, !Z.leb_le in H. lia.
Qed.

(** Every record [createPasswordHash] returns has exactly 112 code units,
    all of them ASCII, and starts with [$pbkdf2$100000$]; making it takes
    sixteen octets from the random source and writes nothing to the
    console. *)
Theorem created_record_shape (password : JS.jsstring) (w : world) :
  exists r,
    result (createPasswordHash password) w = Return r
    /\ List.length r = 112%nat
    /\ forallb is_ascii r = true
    /\ firstn 15 r = JS.lit "$pbkdf2$100000$"
    /\ after (createPasswordHash password) w = advance 16 w.
Proof.
  exists (encoded_record (JS.Int 100000) (drawn_salt w)
            (digest_of password (drawn_salt w) 100000)).
  unfold result, after. rewrite createPasswordHash_run. cbn [fst snd].
  destruct (drawn_salt_shape w) as [S1 S2].
  destruct (digest_of_shape password (drawn_salt w) 100000) as [D1 D2].
  split; [exact eq_refl|]. split; [|split; [|split; [|exact eq_refl]]].
  - unfold encoded_record. rewrite !length_app, S2, D2. exact eq_refl.
  - unfold encoded_record. rewrite !forallb_app.
    rewrite (hex_string_ascii _ S1), (hex_string_ascii _ D1). exact eq_refl.
  - exact eq_refl.
Qed.

Lemma char_eqb_sym (c d : JS.char16) : JS.char_eqb c d = JS.char_eqb d c.
Proof.
  destruct (JS.char_eqb c d) eqn:E; symmetry.
  - apply char_eqb_eq in E. subst d. apply char_eqb_refl.
  - destruct (JS.char_eqb d c) eqn:E'; [|reflexivity].
    apply char_eqb_eq in E'. subst d. rewrite char_eqb_refl in E. discriminate E.
Qed.

Lemma split_length (sep : JS.char16) (s : JS.jsstring) :
  List.length (JS.split sep s) = S (occurrences sep s).
Proof.
  unfold occurrences. induction s as [|c s IH]; [reflexivity|].
  cbn [JS.split filter]. rewrite (char_eqb_sym sep c).
  destruct (JS.char_eqb c sep).
  - cbn [List.length]. rewrite IH. reflexivity.
  - destruct (JS.split sep s) as [|p ps] eqn:E.
    + exfalso. exact (split_nonempty sep s E).
    + cbn [List.length] in *. exact IH.
Qed.

Lemma verifyPassword_guard (password r : JS.jsstring) (w : world) :
  negb (List.length (JS.split dollar r) =? 5)%nat
  || JS.strict_neq (JS.index (JS.split dollar r) 1) (JS.lit "pbkdf2") = true ->
  verifyPassword password r w
  = (Return false,
     World (tape w) (cursor w) (console w ++ [LogError "Invalid password hash format" None])).
Proof.
  intros G. unfold verifyPassword, try_catch, bind. rewrite G. reflexivity.
Qed.

(** A stored string that does not hold exactly four [$] is refused whatever
    the password: so is the empty string, the default of the column. *)
Theorem verifyPassword_needs_four_delimiters (password r : JS.jsstring) (w : world) :
  occurrences dollar r <> 4%nat ->
  result (verifyPassword password r) w = Return false.
Proof.
  intros H. unfold result. rewrite verifyPassword_guard; [reflexivity|].
  apply orb_true_iff. left. apply negb_true_iff, Nat.eqb_neq.
  rewrite split_length. lia.
Qed.

(** The empty string holds no [$] at all. *)
Lemma verifyPassword_empty_record :
  result (verifyPassword (JS.lit "Test123!@#") []) world0 = Return false.
Proof.
  apply (verifyPassword_needs_four_delimiters (JS.lit "Test123!@#") [] world0).
  vm_compute. discriminate.
Defined.

(** What stands before the first [$] of a record is never looked at. *)
Theorem verifyPassword_ignores_leading_part (password x t : JS.jsstring) (w : world) :
  free_of dollar x = true ->
  verifyPassword password (x ++ dollar :: t) w = verifyPassword password (dollar :: t) w.
Proof.
  intros Hx. unfold verifyPassword.
  rewrite (split_app dollar x t Hx).
  change (dollar :: t) with ([] ++ dollar :: t).
  rewrite (split_app dollar [] t eq_refl). reflexivity.
Qed.

(** A version tag before the record. *)
Lemma verifyPassword_ignores_leading_text :
  verifyPassword (JS.lit "password")
    (JS.lit "v1" ++ dollar :: JS.lit "pbkdf2$2$salt$00") world0
  = verifyPassword (JS.lit "password") (dollar :: JS.lit "pbkdf2$2$salt$00") world0.
Proof.
  apply (verifyPassword_ignores_leading_part (JS.lit "password") (JS.lit "v1")
           (JS.lit "pbkdf2$2$salt$00") world0).
  reflexivity.
Defined.

Lemma five_parts {A : Type} (l : list A) :
  List.length l = 5%nat -> exists a b c d e, l = [a; b; c; d; e].
Proof.
  destruct l as [|a [|b [|c [|d [|e [|f l]]]]]]; cbn; intros H; try discriminate H.
  exists a, b, c, d, e. reflexivity.
Qed.

Lemma wellformed_parts (r : JS.jsstring) :
  malformed r = false ->
  exists e i salt stored c,
    JS.split dollar r = [e; JS.lit "pbkdf2"; i; salt; stored]
    /\ JS.parseInt i = JS.Int c /\ valid_iterations c = true.
Proof.
  unfold malformed. rewrite !orb_false_iff, negb_false_iff, Nat.eqb_eq.
  intros [[Hl Ht] Hi].
  destruct (five_parts _ Hl) as (e & tag & i & salt & stored & E).
  rewrite E in Ht, Hi. cbn [JS.index nth_error JS.strict_neq nth] in Ht, Hi.
  apply negb_false_iff, str_eqb_eq in Ht. subst tag.
  destruct (JS.parseInt i) as [|c] eqn:P; [discriminate Hi|].
  apply negb_false_iff in Hi.
  exists e, i, salt, stored, c. rewrite E. auto.
Qed.


Lemma digit_prefix_then (ds : list Z) (tail : JS.jsstring) :
  Forall is_decimal ds -> unread_tail tail = true ->
  JS.digit_prefix 10 (map JS.digit_char ds ++ tail) = ds.
Proof.
  intros Hall Ht. induction Hall as [|d ds Hd _ IH].
  - cbn [map app]. destruct tail as [|c tail]; [reflexivity|].
    cbn [unread_tail JS.digit_prefix] in *.
    destruct (JS.digit_value 10 c); [discriminate Ht|reflexivity].
  - cbn [map app JS.digit_prefix]. rewrite (digit_char_value d Hd), IH. reflexivity.
Qed.

Lemma parseInt_digits_then (d : Z) (ds : list Z) (tail : JS.jsstring) :
  Forall is_decimal (d :: ds) -> unread_tail tail = true ->
  JS.parseInt (map JS.digit_char (d :: ds) ++ tail) = JS.Int (JS.digits_value 10 (d :: ds)).
Proof.
  intros Hall Ht. pose proof (digit_prefix_then _ tail Hall Ht) as Hp.
  inversion Hall as [|? ? Hd Hds]; subst.
  unfold JS.parseInt. cbn [map app JS.trim_start] in *.
  rewrite (digit_char_not_white d Hd).
  rewrite (code_digit_char d Hd).
  replace (48 + d =? 45) with false by (symmetry; apply Z.eqb_neq; unfold is_decimal in Hd; lia).
  replace (48 + d =? 43) with false by (symmetry; apply Z.eqb_neq; unfold is_decimal in Hd; lia).
  destruct ds as [|d' ds'].
  - cbn [map app] in *. destruct tail as [|c tail].
    + rewrite Hp. f_equal. lia.
    + cbn [unread_tail] in Ht.
      destruct (JS.digit_value 10 c) eqn:V; [discriminate Ht|].
      apply negb_true_iff in Ht. rewrite Ht, andb_false_r.
      rewrite Hp. f_equal. lia.
  - inversion Hds as [|? ? Hd' _]; subst. cbn [map app] in *.
    rewrite (code_digit_char d' Hd').
    replace (48 + d' =? 120) with false
      by (symmetry; apply Z.eqb_neq; unfold is_decimal in Hd'; lia).
    replace (48 + d' =? 88) with false
      by (symmetry; apply Z.eqb_neq; unfold is_decimal in Hd'; lia).
    rewrite andb_false_r. rewrite Hp. f_equal. lia.
Qed.

Lemma parseInt_toString_then (n : Z) (tail : JS.jsstring) :
  0 <= n -> unread_tail tail = true ->
  JS.parseInt (JS.Number_toString 10 (JS.Int n) ++ tail) = JS.Int n.
Proof.
  intros Hn Ht. unfold JS.Number_toString.
  replace (n <? 0) with false by (symmetry; apply Z.ltb_ge; lia).
  destruct (digits_spec n Hn) as (Hall & Hne & Hval).
  destruct (JS.digits 10 n) as [|d ds]; [congruence|].
  rewrite parseInt_digits_then by assumption. rewrite Hval. reflexivity.
Qed.

(** The iterations of a record are read with [parseInt], which stops at the
    first character that is no digit: text after the number, such as a unit
    or a comment, changes nothing in what [verifyPassword] does. *)
Theorem verifyPassword_reads_number_prefix
    (password salt stored tail : JS.jsstring) (n : Z) (w : world) :
  0 <= n ->
  unread_tail tail = true ->
  free_of dollar tail = true ->
  free_of dollar salt = true ->
  free_of dollar stored = true ->
  verifyPassword password
    (JS.lit "$pbkdf2$" ++ (JS.Number_toString 10 (JS.Int n) ++ tail) ++ JS.lit "$"
     ++ salt ++ JS.lit "$" ++ stored) w
  = verifyPassword password (encoded_record (JS.Int n) salt stored) w.
Proof.
  intros Hn Ht Hf Hs Hd.
  rewrite (verifyPassword_parts password (encoded_record (JS.Int n) salt stored)
             [] (JS.Number_toString 10 (JS.Int n)) salt stored w)
    by (apply split_record; assumption).
  rewrite (verifyPassword_parts password _
             [] (JS.Number_toString 10 (JS.Int n) ++ tail) salt stored w).
  - rewrite parseInt_toString_then by assumption.
    rewrite parseInt_toString by assumption. reflexivity.
  - assert (E : forall i,
               JS.lit "$pbkdf2$" ++ i ++ JS.lit "$" ++ salt ++ JS.lit "$" ++ stored
               = [] ++ dollar :: (JS.lit "pbkdf2" ++ dollar ::
                   (i ++ dollar :: (salt ++ dollar :: stored)))) by reflexivity.
    rewrite E.
    rewrite split_app by reflexivity.
    rewrite split_app by reflexivity.
    rewrite split_app
      by (rewrite free_of_app, toString_free by assumption; exact Hf).
    rewrite split_app by assumption.
    rewrite split_free by assumption. reflexivity.
Qed.

(** A record that says [100000 rounds] where the count stands. *)
Lemma verifyPassword_reads_number_prefix_rounds :
  verifyPassword (JS.lit "password")
    (JS.lit "$pbkdf2$" ++ (JS.Number_toString 10 (JS.Int 100000) ++ JS.lit " rounds")
     ++ JS.lit "$" ++ JS.lit "00ff" ++ JS.lit "$" ++ JS.lit "00") world0
  = verifyPassword (JS.lit "password")
      (encoded_record (JS.Int 100000) (JS.lit "00ff") (JS.lit "00")) world0.
Proof.
  apply (verifyPassword_reads_number_prefix (JS.lit "password") (JS.lit "00ff") (JS.lit "00")
           (JS.lit " rounds") 100000 world0); [lia|reflexivity..].
Defined.

(** ** Looking a user up and verifying them *)

Lemma verifyPassword_malformed_false (password r : JS.jsstring) (w : world) :
  malformed r = true -> result (verifyPassword password r) w = Return false.
Proof.
  unfold malformed. intros M. unfold result.
  destruct (negb (List.length (JS.split dollar r) =? 5)%nat
            || JS.strict_neq (JS.index (JS.split dollar r) 1) (JS.lit "pbkdf2")) eqn:G.
  - rewrite verifyPassword_guard by exact G. reflexivity.
  - cbn [orb] in M. unfold verifyPassword, try_catch, bind. rewrite G.
    destruct (JS.parseInt (nth 2 (JS.split dollar r) [])) as [|c] eqn:P.
    + rewrite hashPassword_NaN. reflexivity.
    + apply negb_true_iff in M.
      destruct (hashPassword_throws password (nth 3 (JS.split dollar r) []) c w M)
        as [err ->].
      reflexivity.
Qed.

(** The answer of [verifyPassword] does not depend on the state it runs in. *)
Lemma verifyPassword_any_world (password r : JS.jsstring) (w1 w2 : world) :
  result (verifyPassword password r) w1 = result (verifyPassword password r) w2.
Proof.
  destruct (malformed r) eqn:M.
  - rewrite !verifyPassword_malformed_false by exact M. reflexivity.
  - destruct (wellformed_parts r M) as (e & i & salt & stored & c & Hs & Hi & Hc).
    unfold result.
    rewrite !(verifyPassword_wellformed password r e i salt stored c _ Hs Hi Hc).
    reflexivity.
Qed.

Lemma verifyPassword_verdict (password r : JS.jsstring) :
  exists b, forall w, result (verifyPassword password r) w = Return b.
Proof.
  destruct (malformed r) eqn:M.
  - exists false. intros w. apply verifyPassword_malformed_false, M.
  - destruct (wellformed_parts r M) as (e & i & salt & stored & c & Hs & Hi & Hc).
    exists (JS.str_eqb (digest_of password salt c) stored). intros w. unfold result.
    rewrite (verifyPassword_wellformed password r e i salt stored c w Hs Hi Hc).
    reflexivity.
Qed.

Section UserTable.

Variable single : JS.jsstring -> prog Db.response.

(** [getUserByEmail] never throws: it returns the row of an answer without
    error, and [null] when the answer carries an error or the client
    throws. *)
Theorem getUserByEmail_never_throws (email : JS.jsstring) (w : world) :
  (exists user, result (Db.getUserByEmail single email) w = Return user)
  /\ (forall r, result (single email) w = Return r ->
        result (Db.getUserByEmail single email) w
        = Return (match Db.error r with Some _ => None | None => Db.data r end))
  /\ (forall err, result (single email) w = Throw err ->
        result (Db.getUserByEmail single email) w = Return None).
Proof.
  unfold result, Db.getUserByEmail, try_catch, bind.
  destruct (single email w) as [[r|err] w1]; cbn [fst].
  - destruct (Db.error r) as [e|] eqn:Er; cbn [console_error ret fst].
    + split; [eexists; reflexivity|]. split.
      * intros r' E. injection E as <-. rewrite Er. reflexivity.
      * intros err E. discriminate E.
    + split; [eexists; reflexivity|]. split.
      * intros r' E. injection E as <-. rewrite Er. reflexivity.
      * intros err E. discriminate E.
  - cbn [console_error ret fst]. split; [eexists; reflexivity|]. split.
    + intros r E. discriminate E.
    + intros err' _. reflexivity.
Qed.

Lemma getUserByEmail_run (email : JS.jsstring) (w : world) :
  exists w1,
    Db.getUserByEmail single email w
    = (Return (match result (single email) w with
               | Return r => match Db.error r with Some _ => None | None => Db.data r end
               | Throw _ => None
               end), w1).
Proof.
  unfold result, Db.getUserByEmail, try_catch, bind.
  destruct (single email w) as [[r|err] w1]; cbn [fst].
  - destruct (Db.error r); eexists; reflexivity.
  - eexists; reflexivity.
Qed.

Lemma verifyUser_on_row (email q : JS.jsstring) (w : world)
    (u : Db.User) (stored : JS.jsstring) (b : bool) :
  result (single email) w = Return (Db.Response (Some u) None) ->
  Db.password u = Some stored ->
  stored <> [] ->
  (forall w', result (verifyPassword q stored) w' = Return b) ->
  result (Db.verifyUser single email q) w = Return (if b then Some u else None).
Proof.
  intros Q P Hne V.
  destruct (getUserByEmail_run email w) as [w1 E]. rewrite Q in E. cbn [Db.error Db.data] in E.
  unfold result. unfold Db.verifyUser, try_catch, bind. rewrite E, P.
  destruct stored as [|c stored]; [congruence|]. cbn [Db.truthy].
  specialize (V w1). unfold result in V.
  destruct (verifyPassword q (c :: stored) w1) as [o w2]. cbn [fst] in V. subst o.
  destruct b; reflexivity.
Qed.

(** [verifyUser] never throws.  It returns a row exactly when the query
    answers with that row and no error, the row has a non-empty password
    and [verifyPassword] accepts the submitted password against it; in every
    other case, a failing or throwing query included, it returns [null]. *)
Theorem verifyUser_returns_row_iff (email password : JS.jsstring) (w : world) :
  (exists answer, result (Db.verifyUser single email password) w = Return answer)
  /\ (forall u,
        result (Db.verifyUser single email password) w = Return (Some u)
        <-> exists stored,
              result (single email) w = Return (Db.Response (Some u) None)
              /\ Db.password u = Some stored /\ stored <> []
              /\ result (verifyPassword password stored) w = Return true).
Proof.
  destruct (getUserByEmail_run email w) as [w1 E].
  unfold result at 1 2. unfold Db.verifyUser, try_catch, bind. rewrite E.
  destruct (result (single email) w) as [r|err] eqn:Q.
  - destruct r as [d e]. cbn [Db.error Db.data].
    destruct e as [e|]; [|destruct d as [u0|]].
    + cbn [fst ret]. split; [eexists; reflexivity|]. intros u. split.
      * intros H. discriminate H.
      * intros (stored & H & _). discriminate H.
    + destruct (Db.password u0) as [[|c stored]|] eqn:P; cbn [Db.truthy].
      * cbn [fst ret]. split; [eexists; reflexivity|]. intros u. split.
        -- intros H. discriminate H.
        -- intros (stored & H & P' & Hne & _). injection H as <-. congruence.
      * destruct (verifyPassword password (c :: stored) w1) as [o w2] eqn:V1.
        destruct (verifyPassword_verdict password (c :: stored)) as [b Hb].
        pose proof (Hb w) as A. specialize (Hb w1).
        unfold result in Hb. rewrite V1 in Hb. cbn [fst] in Hb. subst o.
        symmetry in A.
        destruct b; cbn [fst ret].
        -- split; [eexists; reflexivity|]. intros u. split.
           ++ intros H. injection H as <-. exists (c :: stored).
              split; [reflexivity|]. split; [exact P|]. split; [discriminate|].
              symmetry. exact A.
           ++ intros (stored' & H & _). injection H as <-. reflexivity.
        -- split; [eexists; reflexivity|]. intros u. split.
           ++ intros H. discriminate H.
           ++ intros (stored' & H & P' & _ & V). injection H as <-.
              rewrite P in P'. injection P' as <-.
              rewrite <- A in V. discriminate V.
      * cbn [fst ret]. split; [eexists; reflexivity|]. intros u. split.
        -- intros H. discriminate H.
        -- intros (stored & H & P' & _). injection H as <-. congruence.
    + cbn [fst ret]. split; [eexists; reflexivity|]. intros u. split.
      * intros H. discriminate H.
      * intros (stored & H & _). discriminate H.
  - cbn [fst ret]. split; [eexists; reflexivity|]. intros u. split.
    + intros H. discriminate H.
    + intros (stored & H & _). discriminate H.
Qed.

End UserTable.

(** Registration, then login: when the table answers a query with a row
    whose password is the record [createPasswordHash] made for a password,
    [verifyUser] returns that row for this password, and for any other
    password exactly when [verifyPassword] accepts it against the record. *)
Theorem register_then_login (password : JS.jsstring) (w0 : world) :
  exists r,
    result (createPasswordHash password) w0 = Return r
    /\ forall single u email w,
         result (single email) w = Return (Db.Response (Some u) None) ->
         Db.password u = Some r ->
         result (Db.verifyUser single email password) w = Return (Some u)
         /\ (forall q,
               result (Db.verifyUser single email q) w = Return (Some u)
               <-> result (verifyPassword q r) w = Return true).
Proof.
  exists (encoded_record (JS.Int 100000) (drawn_salt w0)
            (digest_of password (drawn_salt w0) 100000)).
  split; [unfold result; rewrite createPasswordHash_run; exact eq_refl|].
  intros single u email w Q P.
  assert (Hne : encoded_record (JS.Int 100000) (drawn_salt w0)
                  (digest_of password (drawn_salt w0) 100000) <> [])
    by (unfold encoded_record; discriminate).
  assert (A : forall q,
             result (Db.verifyUser single email q) w = Return (Some u)
             <-> result (verifyPassword q
                           (encoded_record (JS.Int 100000) (drawn_salt w0)
                              (digest_of password (drawn_salt w0) 100000))) w
                 = Return true).
  { intros q.
    destruct (verifyPassword_verdict q
                (encoded_record (JS.Int 100000) (drawn_salt w0)
                   (digest_of password (drawn_salt w0) 100000))) as [b Hb].
    rewrite (verifyUser_on_row single email q w u _ b Q P Hne Hb), (Hb w).
    destruct b; split; intros H; try reflexivity; discriminate H. }
  split; [|exact A].
  apply A. unfold result. rewrite verify_created, str_eqb_refl. exact eq_refl.
Qed.

(** ** The deprecated query function *)

Section QueryDatabase.

Variable V : Type.
Variable checkEmailExists : option V -> prog bool.
Variable Date_now : prog Z.
Variable Date_toISOString : prog JS.jsstring.

(** [queryDatabase] never throws and never answers with a simulated row.  A
    statement that is not the count of an e-mail address, an INSERT for one,
    gets the empty answer and nothing is done; the count is 1 or 0 as
    [checkEmailExists] says, and 0 when [checkEmailExists] throws: after a
    failed lookup the address looks free. *)
Theorem queryDatabase_answers (sql : JS.jsstring) (params : list V) (w : world) :
  let run := Query.queryDatabase V checkEmailExists Date_now Date_toISOString sql params in
  (Query.counts_email sql = false -> run w = (Return [], w))
  /\ (Query.counts_email sql = true ->
      forall found,
        result (checkEmailExists (nth_error params 0)) w = Return found ->
        result run w = Return [Query.CountRow V (if found then 1 else 0)])
  /\ (Query.counts_email sql = true ->
      forall err,
        result (checkEmailExists (nth_error params 0)) w = Throw err ->
        result run w = Return [Query.CountRow V 0])
  /\ (exists n, result run w = Return [] \/ result run w = Return [Query.CountRow V n]).
Proof.
  cbn zeta. unfold result, Query.queryDatabase, Query.simulateDatabaseQuery, try_catch, bind.
  destruct (Query.counts_email sql) eqn:C.
  - destruct (checkEmailExists (nth_error params 0) w) as [[found|err] w1]; cbn [fst ret].
    + split; [discriminate|]. split; [|split].
      * intros _ found' E. injection E as <-. reflexivity.
      * intros _ err E. discriminate E.
      * eexists. right. reflexivity.
    + cbn [console_error ret fst]. split; [discriminate|]. split; [|split].
      * intros _ found E. discriminate E.
      * intros _ err' _. reflexivity.
      * exists 0. right. reflexivity.
  - cbn [fst ret]. split; [reflexivity|]. split; [discriminate|]. split; [discriminate|].
    exists 0. left. reflexivity.
Qed.

End QueryDatabase.

(** ** A generated password, rated *)

(** A generated password of twelve characters or more, the default length
    included, earns both points for its length and one at least for its
    characters: its score is 3 or 4, and the only remarks it can get are
    about missing classes of characters. *)
Theorem generated_password_strength (n : nat) (w : world) :
  12 <= Z.of_nat n <= 65536 ->
  exists password,
    result (generateRandomPassword n) w = Return password
    /\ 3 <= score (checkPasswordStrength password) <= 4
    /\ incl (feedback (checkPasswordStrength password)) class_remarks.
Proof.
  intros [Hlo Hhi]. exists (map pick (drawn n w)). unfold result.
  rewrite generateRandomPassword_run by assumption. cbn [fst].
  split; [reflexivity|].
  assert (Hlen : len (map pick (drawn n w)) = Z.of_nat n)
    by (unfold len; rewrite length_map, drawn_length; reflexivity).
  pose proof (checkPasswordStrength_tests (map pick (drawn n w))) as E.
  cbn zeta in E. rewrite E. cbn [score feedback]. rewrite Hlen.
  replace (8 <=? Z.of_nat n) with true by (symmetry; apply Z.leb_le; lia).
  replace (12 <=? Z.of_nat n) with true by (symmetry; apply Z.leb_le; lia).
  cbn [Z.b2z app].
  assert (Hne : map pick (drawn n w) <> []).
  { intros H. apply (f_equal (@List.length _)) in H.
    rewrite length_map, drawn_length in H. cbn in H. lia. }
  pose proof (classes_nonempty _ Hne). pose proof (classes_range (map pick (drawn n w))).
  split; [lia|].
  unfold class_remarks. intros m Hm.
  repeat (apply in_app_or in Hm; destruct Hm as [Hm|Hm]);
    repeat match goal with
           | H : In _ (if ?b then _ else _) |- _ => destruct b
           | H : In _ [] |- _ => destruct H
           | H : In _ [_] |- _ => destruct H as [<-|[]]
           end; cbn; tauto.
Qed.

(** The default length. *)
Lemma generated_password_strength_twelve :
  exists password,
    result (generateRandomPassword 12) world0 = Return password
    /\ 3 <= score (checkPasswordStrength password) <= 4
    /\ incl (feedback (checkPasswordStrength password)) class_remarks.
Proof.
  apply (generated_password_strength 12 world0). split; vm_compute; discriminate.
Defined.
